(** * satnerf: the NeRF architecture of [models.py] and its presets

    A shallow embedding of [models.py] (classes [Siren], [Mapping], [NeRF])
    and of the presets of [config.py].

    Conventions of the embedding.
    - A tensor is a two-dimensional array [(B, C)]: its batch size, its
      width (the last axis) and its entries.  Tensor entries are real
      numbers: [torch.sin], [torch.cos], softplus and the linear layers
      are those of the Standard Library's reals, in exact arithmetic.  The
      final sigmoid alone is rounded to float32, because the range of the
      colour output depends on that rounding.
    - Python integers are [Z]; sizes that reach the tensor runtime are
      checked there (a negative dimension raises) and stored as [nat].
    - A call that can raise returns a [result]; [NeRF.forward], which reads
      the attributes of [self], runs in a state-and-error monad over the
      module object.
    - The random initial weights of [torch.nn.Linear] are an explicit
      argument of the constructors. *)

From Stdlib Require Import Reals Lra Lia ZArith List Bool.
From Stdlib Require Strings.String.
Import ListNotations.
Import String.StringSyntax.
Delimit Scope string_scope with string.
Bind Scope string_scope with String.string.

Open Scope R_scope.

(** ** Errors and results *)

(** The exceptions the tensor runtime and Python can raise in this code. *)
Inductive exn : Type :=
| ShapeMismatch   (* split sizes, matrix product or concatenation disagree *)
| EmptyList       (* torch.cat of an empty list of tensors *)
| NegativeSize    (* a tensor or a split with a negative dimension *)
| IndexError      (* indexing a Sequential out of range *)
| TypeError.      (* a module applied to None *)

Inductive result (A : Type) : Type :=
| Ok (a : A)
| Err (e : exn).
Arguments Ok {A} a.
Arguments Err {A} e.

Definition rbind {A B} (r : result A) (k : A -> result B) : result B :=
  match r with
  | Ok a => k a
  | Err e => Err e
  end.

Declare Scope result_scope.
Delimit Scope result_scope with res.
Notation "x <- r ;; k" := (rbind r (fun x => k))
  (at level 61, r at next level, right associativity) : result_scope.
Notation "' p <- r ;; k" := (rbind r (fun x => match x with p => k end))
  (at level 61, p pattern, r at next level, right associativity) : result_scope.

(** ** Tensors of shape (B, C) *)

Record tensor : Type := Tensor {
  batch : nat;
  width : nat;
  at_ : nat -> nat -> R
}.

Definition shape (t : tensor) : nat * nat := (batch t, width t).

(** Two tensors are the same array when they have the same shape and the
    same entries inside it. *)
Definition teq (t u : tensor) : Prop :=
  batch t = batch u /\ width t = width u /\
  forall b c, (b < batch t)%nat -> (c < width t)%nat -> at_ t b c = at_ u b c.

(** Elementwise application of a scalar function. *)
Definition tmap (f : R -> R) (t : tensor) : tensor :=
  Tensor (batch t) (width t) (fun b c => f (at_ t b c)).

(** Concatenation of two tensors along the last axis. *)
Definition cat2 (t u : tensor) : tensor :=
  Tensor (batch t) (width t + width u)
         (fun b c => if (c <? width t)%nat then at_ t b c
                     else at_ u b (c - width t)).

(** [torch.cat(ts, -1)]: the list must be non-empty and the batch sizes
    must agree. *)
Fixpoint cat (ts : list tensor) : result tensor :=
  match ts with
  | [] => Err EmptyList
  | [t] => Ok t
  | t :: rest =>
      (u <- cat rest ;;
       if (batch t =? batch u)%nat then Ok (cat2 t u) else Err ShapeMismatch)%res
  end.

(** [torch.split(x, [a, b], dim=-1)]: the sizes must be non-negative and sum
    to the width of [x]. *)
Definition split (x : tensor) (a b : Z) : result (tensor * tensor) :=
  if ((a <? 0) || (b <? 0))%Z then Err NegativeSize
  else if (Z.of_nat (width x) =? a + b)%Z then
    Ok (Tensor (batch x) (Z.to_nat a) (at_ x),
        Tensor (batch x) (Z.to_nat b) (fun r c => at_ x r (Z.to_nat a + c)))
  else Err ShapeMismatch.

(** ** Scalar activations *)

(** [Siren.forward]: sin(30 * input). *)
Definition siren_act (v : R) : R := sin (30 * v).

(** [torch.nn.ReLU]. *)
Definition relu (v : R) : R := Rmax 0 v.

(** [torch.nn.Softplus] with its defaults beta = 1 and threshold = 20: the
    input itself above the threshold, log(1 + exp(v)) below. *)
Definition softplus (v : R) : R :=
  if Rlt_dec 20 v then v else ln (1 + exp v).

(** Rounding to the nearest integer, ties to even. *)
Definition round_half_even (y : R) : Z :=
  let n := Int_part y in
  let r := y - IZR n in
  if Rlt_dec r (1 / 2) then n
  else if Rlt_dec (1 / 2) r then (n + 1)%Z
  else if Z.even n then n else (n + 1)%Z.

(** The float32 exponent of a real: floor(log2 |x|), and -126 for the
    subnormal numbers. *)
Definition exponent32 (x : R) : Z :=
  Z.max (-126) (Int_part (ln (Rabs x) / ln 2)).

(** Rounding to the nearest float32 (24 significant bits), ties to even;
    overflow to infinity is not modelled. *)
Definition round32 (x : R) : R :=
  let q := Rpower 2 (IZR (exponent32 x - 23)) in
  IZR (round_half_even (x / q)) * q.

(** [torch.nn.Sigmoid] on a float32 tensor: the logistic function, rounded
    to float32. *)
Definition sigmoid (v : R) : R := round32 (/ (1 + exp (- v))).

(** ** torch.linspace and the frequency encoder *)

(** [torch.linspace(start, end, steps)]: [steps] points from [start] to
    [end], both included; a negative [steps] raises. *)
Definition linspace (start stop : R) (steps : Z) : result (list R) :=
  if (steps <? 0)%Z then Err NegativeSize
  else if (steps =? 1)%Z then Ok [start]
  else Ok (map (fun i => start + INR i * ((stop - start) / (IZR steps - 1)))
               (seq 0 (Z.to_nat steps))).

Record Mapping : Type := {
  N_freqs : Z;
  in_channels : Z;
  funcs : list (R -> R);
  out_channels : Z;
  freq_bands : list R
}.

(** [Mapping.__init__(mapping_size, in_size, logscale)]. *)
Definition Mapping_init (mapping_size in_size : Z) (logscale : bool)
  : result Mapping :=
  let N := mapping_size in
  let fs := [sin; cos] in
  let out := (in_size * (Z.of_nat (length fs) * N + 1))%Z in
  (bands <- (if logscale
             then (l <- linspace 0 (IZR (N - 1)) N ;; Ok (map (Rpower 2) l))
             else linspace 1 (powerRZ 2 (N - 1)) N) ;;
   Ok {| N_freqs := N; in_channels := in_size; funcs := fs;
         out_channels := out; freq_bands := bands |})%res.

(** [Mapping.forward]: the list [out] in the order the two loops build it,
    then [torch.cat(out, -1)]. *)
Definition Mapping_out (m : Mapping) (x : tensor) : list tensor :=
  flat_map (fun freq => map (fun func => tmap (fun v => func (freq * v)) x)
                            (funcs m))
           (freq_bands m).

Definition Mapping_forward (m : Mapping) (x : tensor) : result tensor :=
  cat (Mapping_out m x).

(** ** torch.nn.Linear *)

(** The initial value of a weight matrix and of a bias vector. *)
Record init : Type := {
  weight0 : nat -> nat -> R;
  bias0 : nat -> R
}.

Record Linear : Type := {
  in_features : nat;
  out_features : nat;
  weight : nat -> nat -> R;      (* weight j c: row j (output), column c *)
  bias : nat -> R
}.

(** The layer [torch.nn.Linear(i, o)] builds when both sizes are valid. *)
Definition Linear_of (i o : Z) (p : init) : Linear :=
  {| in_features := Z.to_nat i; out_features := Z.to_nat o;
     weight := weight0 p; bias := bias0 p |}.

(** [torch.nn.Linear(i, o)]: a negative dimension raises. *)
Definition Linear_init (i o : Z) (p : init) : result Linear :=
  if ((i <? 0) || (o <? 0))%Z then Err NegativeSize
  else Ok (Linear_of i o p).

(** The sum of [f 0], ..., [f (n-1)]. *)
Fixpoint rsum (n : nat) (f : nat -> R) : R :=
  match n with
  | O => 0
  | S k => rsum k f + f k
  end.

(** The affine map of a linear layer: x W^T + b. *)
Definition Linear_apply (l : Linear) (x : tensor) : tensor :=
  Tensor (batch x) (out_features l)
         (fun b j => rsum (in_features l)
                          (fun c => at_ x b c * weight l j c) + bias l j).

(** [Linear.forward]: the width of [x] must be [in_features]. *)
Definition Linear_forward (l : Linear) (x : tensor) : result tensor :=
  if (width x =? in_features l)%nat then Ok (Linear_apply l x)
  else Err ShapeMismatch.

(** ** Modules and torch.nn.Sequential *)

(** The modules this code puts in a Sequential or in [self.mapping]. *)
Inductive module : Type :=
| MLinear (l : Linear)
| MReLU
| MSiren
| MSoftplus
| MSigmoid
| MMapping (m : Mapping).

Definition module_forward (m : module) (x : tensor) : result tensor :=
  match m with
  | MLinear l => Linear_forward l x
  | MReLU => Ok (tmap relu x)
  | MSiren => Ok (tmap siren_act x)
  | MSoftplus => Ok (tmap softplus x)
  | MSigmoid => Ok (tmap sigmoid x)
  | MMapping e => Mapping_forward e x
  end.

(** [Sequential.forward]: the modules in order. *)
Fixpoint Sequential_forward (s : list module) (x : tensor) : result tensor :=
  match s with
  | [] => Ok x
  | m :: rest => (y <- module_forward m x ;; Sequential_forward rest y)%res
  end.

(** [s[i]] for a Sequential, with Python's negative indices. *)
Definition Sequential_get (s : list module) (i : Z) : result module :=
  let j := (if i <? 0 then i + Z.of_nat (length s) else i)%Z in
  if (j <? 0)%Z then Err IndexError
  else match nth_error s (Z.to_nat j) with
       | Some m => Ok m
       | None => Err IndexError
       end.

(** Python's [range(a, b)] and [i in l] on integers. *)
Definition range (a b : Z) : list Z :=
  map (fun k => (a + Z.of_nat k)%Z) (seq 0 (Z.to_nat (b - a))).

Definition zin (i : Z) (l : list Z) : bool := existsb (Z.eqb i) l.

(** ** The presets of config.py (the fields the model reads) *)

Module Config.
Record t : Type := {
  layers : Z;
  feat : Z;
  mapping : bool;
  siren : bool;
  skips : list Z;
  input_sizes : Z * Z;
  mapping_sizes : Z * Z
}.
End Config.

Definition DefaultConfig : Config.t :=
  {| Config.layers := 8; Config.feat := 256; Config.mapping := true;
     Config.siren := false; Config.skips := [4%Z];
     Config.input_sizes := (3, 0)%Z; Config.mapping_sizes := (10, 4)%Z |}.

Definition SNerfBasicConfig : Config.t :=
  {| Config.layers := 8; Config.feat := 100; Config.mapping := false;
     Config.siren := true; Config.skips := [];
     Config.input_sizes := (3, 0)%Z; Config.mapping_sizes := (10, 4)%Z |}.

(** [load_config] with dataset 'blender': [conf.input_sizes[1] = 3]. *)
Definition blender (c : Config.t) : Config.t :=
  {| Config.layers := Config.layers c; Config.feat := Config.feat c;
     Config.mapping := Config.mapping c; Config.siren := Config.siren c;
     Config.skips := Config.skips c;
     Config.input_sizes := (fst (Config.input_sizes c), 3%Z);
     Config.mapping_sizes := Config.mapping_sizes c |}.

(** ** The NeRF module *)

Record NeRF : Type := {
  layers : Z;
  skips : list Z;
  mapping : module * module;
  input_sizes : Z * Z;
  fc_net : list module;
  sigma_from_xyz : list module;
  feats_from_xyz : list module;
  rgb_from_xyzdir : list module
}.

(** The initial weights of every linear layer of a model: the trunk layers
    by index, then the heads. *)
Record weights : Type := {
  fc_w : Z -> init;
  sigma_w : init;
  feats_w : init;
  rgb_hidden_w : init;
  rgb_out_w : init
}.

(** The activation [nl] of [NeRF.__init__]. *)
Definition activation (siren : bool) : module :=
  if siren then MSiren else MReLU.

(** The loop [for i in range(1, layers)] of [NeRF.__init__], appending to
    [fc_layers]. *)
Fixpoint fc_loop (feat in0 : Z) (sk : list Z) (nl : module) (w : Z -> init)
         (idx : list Z) (fc_layers : list module) : result (list module) :=
  match idx with
  | [] => Ok fc_layers
  | i :: rest =>
      (l <- (if zin i sk then Linear_init (feat + in0) feat (w i)
             else Linear_init feat feat (w i)) ;;
       fc_loop feat in0 sk nl w rest (fc_layers ++ [MLinear l; nl]))%res
  end.

(** [NeRF.__init__]. *)
Definition NeRF_init (c : Config.t) (th : weights) : result NeRF :=
  let feat := Config.feat c in
  let nl := activation (Config.siren c) in
  let '(xyz, dir) := Config.input_sizes c in
  let '(fx, fd) := Config.mapping_sizes c in
  ('(enc, in_size) <-
     (if Config.mapping c then
        (m0 <- Mapping_init fx xyz true ;;
         m1 <- Mapping_init fd dir true ;;
         Ok ((MMapping m0, MMapping m1), (2 * fx * xyz, 2 * fd * dir)%Z))
      else Ok ((MSiren, MSiren), (xyz, dir))) ;;
   l0 <- Linear_init (fst in_size) feat (fc_w th 0%Z) ;;
   fc_layers <- fc_loop feat (fst in_size) (Config.skips c) nl (fc_w th)
                        (range 1 (Config.layers c)) [MLinear l0; nl] ;;
   ls <- Linear_init feat 1 (sigma_w th) ;;
   lf <- Linear_init feat feat (feats_w th) ;;
   lh <- Linear_init (feat + snd in_size) (feat / 2) (rgb_hidden_w th) ;;
   lo <- Linear_init (feat / 2) 3 (rgb_out_w th) ;;
   Ok {| layers := Config.layers c;
         skips := Config.skips c;
         mapping := enc;
         input_sizes := Config.input_sizes c;
         fc_net := fc_layers;
         sigma_from_xyz := [MLinear ls; MSoftplus];
         feats_from_xyz := [MLinear lf; nl];
         rgb_from_xyzdir := [MLinear lh; nl; MLinear lo; MSigmoid] |})%res.

(** ** The forward pass, as a computation on the module object *)

(** A method of the module: it may read and write [self] and may raise. *)
Definition M (A : Type) : Type := NeRF -> result A * NeRF.

Definition ret {A} (a : A) : M A := fun self => (Ok a, self).

Definition bind {A B} (m : M A) (k : A -> M B) : M B :=
  fun self =>
    match m self with
    | (Ok a, self') => k a self'
    | (Err e, self') => (Err e, self')
    end.

(** Reading an attribute of [self]. *)
Definition attr {A} (f : NeRF -> A) : M A := fun self => (Ok (f self), self).

(** A call that does not touch [self] and may raise. *)
Definition call {A} (r : result A) : M A := fun self => (r, self).

Declare Scope method_scope.
Delimit Scope method_scope with M.
Notation "x <- m ;; k" := (bind m (fun x => k))
  (at level 61, m at next level, right associativity) : method_scope.
Notation "' p <- m ;; k" := (bind m (fun x => match x with p => k end))
  (at level 61, p pattern, m at next level, right associativity) : method_scope.

(** The value a method returns, or the exception it raises. *)
Definition run {A} (m : M A) (self : NeRF) : result A := fst (m self).

(** The loop [for i in range(self.layers)] of [NeRF.forward]. *)
Fixpoint trunk (input_xyz : tensor) (idx : list Z) (xyz_ : tensor) : M tensor :=
  match idx with
  | [] => ret xyz_
  | i :: rest =>
      (sk <- attr skips ;;
       xyz_ <- (if zin i sk then call (cat [input_xyz; xyz_]) else ret xyz_) ;;
       net <- attr fc_net ;;
       xyz_ <- call (l <- Sequential_get net (2 * i) ;; module_forward l xyz_)%res ;;
       net <- attr fc_net ;;
       xyz_ <- call (l <- Sequential_get net (2 * i + 1) ;; module_forward l xyz_)%res ;;
       trunk input_xyz rest xyz_)%M
  end.

(** [NeRF.forward(x, input_dir, sigma_only)]. *)
Definition forward (x : tensor) (input_dir : option tensor) (sigma_only : bool)
  : M tensor :=
  (sizes <- attr input_sizes ;;
   '(input_xyz, input_dir) <-
     (if negb sigma_only && (0 <? snd sizes)%Z then
        ('(a, b) <- call (split x (fst sizes) (snd sizes)) ;; ret (a, Some b))
      else ret (x, input_dir)) ;;
   enc <- attr mapping ;;
   input_xyz <- call (module_forward (fst enc) input_xyz) ;;
   n <- attr layers ;;
   shared_features <- trunk input_xyz (range 0 n) input_xyz ;;
   head <- attr sigma_from_xyz ;;
   sigma <- call (Sequential_forward head shared_features) ;;
   if sigma_only then ret sigma
   else
     (fh <- attr feats_from_xyz ;;
      xyz_features <- call (Sequential_forward fh shared_features) ;;
      sizes <- attr input_sizes ;;
      input_xyzdir <-
        (if (0 <? snd sizes)%Z then
           (enc <- attr mapping ;;
            d <- call (match input_dir with
                       | Some d => module_forward (snd enc) d
                       | None => Err TypeError
                       end) ;;
            call (cat [xyz_features; d]))
         else ret xyz_features) ;;
      ch <- attr rgb_from_xyzdir ;;
      rgb <- call (Sequential_forward ch input_xyzdir) ;;
      call (cat [rgb; sigma])))%M.

(** ** Descriptions of a constructed model, used in the statements *)

(** The list [in_size] of [NeRF.__init__]: the width of each branch after
    its encoder. *)
Definition in_size (c : Config.t) : Z * Z :=
  let '(xyz, dir) := Config.input_sizes c in
  let '(fx, fd) := Config.mapping_sizes c in
  if Config.mapping c then (2 * fx * xyz, 2 * fd * dir)%Z else (xyz, dir).

(** The two branch encoders [self.mapping] of [NeRF.__init__]. *)
Definition encoders (c : Config.t) : result (module * module) :=
  let '(xyz, dir) := Config.input_sizes c in
  let '(fx, fd) := Config.mapping_sizes c in
  if Config.mapping c then
    (m0 <- Mapping_init fx xyz true ;;
     m1 <- Mapping_init fd dir true ;;
     Ok (MMapping m0, MMapping m1))%res
  else Ok (MSiren, MSiren).

(** The input width of trunk layer [i]. *)
Definition trunk_in_width (c : Config.t) (i : Z) : Z :=
  if (i =? 0)%Z then fst (in_size c)
  else if zin i (Config.skips c) then (Config.feat c + fst (in_size c))%Z
  else Config.feat c.

(** The linear transform of trunk layer [i]. *)
Definition trunk_linear (c : Config.t) (th : weights) (i : Z) : Linear :=
  Linear_of (trunk_in_width c i) (Config.feat c) (fc_w th i).

(** The module object [NeRF.__init__] returns when nothing raises. *)
Definition model_of (c : Config.t) (th : weights) (enc : module * module) : NeRF :=
  let feat := Config.feat c in
  let nl := activation (Config.siren c) in
  {| layers := Config.layers c;
     skips := Config.skips c;
     mapping := enc;
     input_sizes := Config.input_sizes c;
     fc_net := flat_map (fun i => [MLinear (trunk_linear c th i); nl])
                        (range 0 (Z.max 1 (Config.layers c)));
     sigma_from_xyz := [MLinear (Linear_of feat 1 (sigma_w th)); MSoftplus];
     feats_from_xyz := [MLinear (Linear_of feat feat (feats_w th)); nl];
     rgb_from_xyzdir :=
       [MLinear (Linear_of (feat + snd (in_size c)) (feat / 2) (rgb_hidden_w th));
        nl;
        MLinear (Linear_of (feat / 2) 3 (rgb_out_w th));
        MSigmoid] |}.

(** When nothing the constructor calls raises: the frequency counts (with
    positional encoding) and every layer size are non-negative. *)
Definition buildable (c : Config.t) : bool :=
  ((negb (Config.mapping c)
    || ((0 <=? fst (Config.mapping_sizes c)) && (0 <=? snd (Config.mapping_sizes c))))
   && (0 <=? fst (in_size c)) && (0 <=? Config.feat c)
   && (0 <=? Config.feat c + snd (in_size c)))%Z.

(** The configurations the data model admits, as far as the forward pass
    needs them: at least one layer, every skip index in [1, layers), a
    non-negative direction size, and at least one frequency for every
    encoder that is used. *)
Definition ModelConfig_ok (c : Config.t) : bool :=
  ((1 <=? Config.layers c)
   && forallb (fun s => (1 <=? s) && (s <? Config.layers c)) (Config.skips c)
   && (0 <=? snd (Config.input_sizes c))
   && (negb (Config.mapping c)
       || ((1 <=? fst (Config.mapping_sizes c))
           && ((snd (Config.input_sizes c) =? 0)
               || (1 <=? snd (Config.mapping_sizes c))))))%Z.

(** The width [forward] expects of [x]: both branches when the direction
    is split off, the xyz branch alone otherwise. *)
Definition expected_width (c : Config.t) (sigma_only : bool) : Z :=
  let '(xyz, dir) := Config.input_sizes c in
  if negb sigma_only && (0 <? dir)%Z then (xyz + dir)%Z else xyz.

(** ** The forward pass in stages *)

(** The scalar function of the activation [nl]. *)
Definition act_of (siren : bool) : R -> R :=
  if siren then siren_act else relu.

(** One iteration of the trunk loop on the module object [self]: the
    optional skip concatenation, then [fc_net[2*i]] and [fc_net[2*i + 1]]. *)
Definition trunk_step (self : NeRF) (enc : tensor) (i : Z) (h : tensor)
  : result tensor :=
  (h1 <- (if zin i (skips self) then cat [enc; h] else Ok h) ;;
   h2 <- (l <- Sequential_get (fc_net self) (2 * i) ;; module_forward l h1) ;;
   l <- Sequential_get (fc_net self) (2 * i + 1) ;; module_forward l h2)%res.

Fixpoint trunk_from (self : NeRF) (enc : tensor) (idx : list Z) (h : tensor)
  : result tensor :=
  match idx with
  | [] => Ok h
  | i :: rest => (h' <- trunk_step self enc i h ;; trunk_from self enc rest h')%res
  end.

(** The first statement of [forward]: the xyz part and the direction. *)
Definition inputs (self : NeRF) (x : tensor) (input_dir : option tensor)
           (sigma_only : bool) : result (tensor * option tensor) :=
  if negb sigma_only && (0 <? snd (input_sizes self))%Z then
    ('(a, b) <- split x (fst (input_sizes self)) (snd (input_sizes self)) ;;
     Ok (a, Some b))%res
  else Ok (x, input_dir).

(** The shared features and the density of a batch of positions. *)
Definition density (self : NeRF) (input_xyz : tensor) : result (tensor * tensor) :=
  (enc <- module_forward (fst (mapping self)) input_xyz ;;
   shared <- trunk_from self enc (range 0 (layers self)) enc ;;
   sigma <- Sequential_forward (sigma_from_xyz self) shared ;;
   Ok (shared, sigma))%res.

(** The colour from the shared features and the direction. *)
Definition color (self : NeRF) (shared : tensor) (input_dir : option tensor)
  : result tensor :=
  (xyz_features <- Sequential_forward (feats_from_xyz self) shared ;;
   input_xyzdir <-
     (if (0 <? snd (input_sizes self))%Z then
        (d <- match input_dir with
              | Some d => module_forward (snd (mapping self)) d
              | None => Err TypeError
              end ;;
         cat [xyz_features; d])
      else Ok xyz_features) ;;
   Sequential_forward (rgb_from_xyzdir self) input_xyzdir)%res.

(** What [forward] returns, stage after stage. *)
Definition forward_result (self : NeRF) (x : tensor) (input_dir : option tensor)
           (sigma_only : bool) : result tensor :=
  ('(input_xyz, input_dir) <- inputs self x input_dir sigma_only ;;
   '(shared, sigma) <- density self input_xyz ;;
   if sigma_only then Ok sigma
   else (rgb <- color self shared input_dir ;; cat [rgb; sigma]))%res.

(** The width of a branch after its encoder, for an input of width [w]:
    2 * freqs * w with positional encoding, [w] with the Siren encoder. *)
Definition encoded_width (c : Config.t) (freqs : Z) (w : nat) : nat :=
  if Config.mapping c then (Z.to_nat freqs * 2 * w)%nat else w.

(** A configuration with another skip list, and the skip indices of a
    configuration that lie in [1, layers). *)
Definition with_skips (c : Config.t) (sk : list Z) : Config.t :=
  {| Config.layers := Config.layers c; Config.feat := Config.feat c;
     Config.mapping := Config.mapping c; Config.siren := Config.siren c;
     Config.skips := sk;
     Config.input_sizes := Config.input_sizes c;
     Config.mapping_sizes := Config.mapping_sizes c |}.

Definition in_range_skips (c : Config.t) : list Z :=
  filter (fun s => (1 <=? s) && (s <? Config.layers c))%Z (Config.skips c).

(** ** Relating two runs *)

Definition same_shape (t u : tensor) : Prop :=
  batch t = batch u /\ width t = width u.

(** Two results are related when both raise the same exception or both
    return, with related values. *)
Definition rrel {A : Type} (P : A -> A -> Prop) (r r' : result A) : Prop :=
  match r, r' with
  | Ok a, Ok b => P a b
  | Err e, Err e' => e = e'
  | _, _ => False
  end.

(** The tensors of two runs on batches of [B] and [B'] rows. *)
Definition batches_rel (B B' : nat) (t u : tensor) : Prop :=
  batch t = B /\ batch u = B' /\ width t = width u.

(** Two batches that agree on their first [n] columns. *)
Definition agree_on_first (n : nat) (x x' : tensor) : Prop :=
  forall b j, (b < batch x)%nat -> (j < n)%nat -> at_ x b j = at_ x' b j.

(** ** Concrete inputs *)

Definition zero_init : init :=
  {| weight0 := fun _ _ => 0; bias0 := fun _ => 0 |}.

Definition zero_weights : weights :=
  {| fc_w := fun _ => zero_init; sigma_w := zero_init; feats_w := zero_init;
     rgb_hidden_w := zero_init; rgb_out_w := zero_init |}.

Definition zeros (b w : nat) : tensor := Tensor b w (fun _ _ => 0).

(** The shape of a returned tensor. *)
Definition shape_of (r : result tensor) : result (nat * nat) :=
  match r with
  | Ok t => Ok (shape t)
  | Err e => Err e
  end.

(** A configuration accepted by the constructor although a skip index is 0,
    another is [layers], and the half-width [feat // 2] is 0. *)
Definition bad_skips_config : Config.t :=
  {| Config.layers := 8; Config.feat := 1; Config.mapping := true;
     Config.siren := false; Config.skips := [0%Z; 8%Z];
     Config.input_sizes := (3, 0)%Z; Config.mapping_sizes := (10, 4)%Z |}.

(** ** config.py: the presets and load_config *)

Module Training.
Record t : Type := {
  lr : R;
  bs : Z;
  workers : Z;
  weight_decay : R;
  chunk : Z;
  perturb : R;
  noise_std : R;
  use_disp : bool;
  lr_scheduler : String.string;
  n_epochs : Z
}.
End Training.

(** The defaults of the dataclass [TrainingConfig]. *)
Definition TrainingConfig : Training.t :=
  {| Training.lr := 5e-4; Training.bs := 1024; Training.workers := 4;
     Training.weight_decay := 0; Training.chunk := 32 * 1024;
     Training.perturb := 1.0; Training.noise_std := 1.0;
     Training.use_disp := false; Training.lr_scheduler := "cosine";
     Training.n_epochs := 15 |}.

(** A configuration object: the fields every preset dataclass has.  The
    fields [NeRF.__init__] takes are grouped in [model]. *)
Module Conf.
Record t : Type := {
  name : String.string;
  training : Training.t;
  model : Config.t;
  n_samples : Z;
  n_importance : Z
}.
End Conf.

(** The model fields of [SNerfFullConfig]. *)
Definition SNerfFullConfig : Config.t :=
  {| Config.layers := 8; Config.feat := 100; Config.mapping := false;
     Config.siren := true; Config.skips := [];
     Config.input_sizes := (3, 0)%Z; Config.mapping_sizes := (10, 4)%Z |}.

(** The three preset dataclasses with their defaults. *)
Module Presets.
Definition DefaultConfig : Conf.t :=
  {| Conf.name := "nerf"; Conf.training := TrainingConfig;
     Conf.model := DefaultConfig; Conf.n_samples := 64; Conf.n_importance := 64 |}.

Definition SNerfBasicConfig : Conf.t :=
  {| Conf.name := "s-nerf_basic"; Conf.training := TrainingConfig;
     Conf.model := SNerfBasicConfig; Conf.n_samples := 64; Conf.n_importance := 64 |}.

Definition SNerfFullConfig : Conf.t :=
  {| Conf.name := "s-nerf_full"; Conf.training := TrainingConfig;
     Conf.model := SNerfFullConfig; Conf.n_samples := 64; Conf.n_importance := 64 |}.
End Presets.

(** The command-line arguments [load_config] reads. *)
Record Args : Type := {
  config_name : String.string;
  dataset_name : String.string
}.

(** A dictionary lookup [d[k]]: the value, or KeyError. *)
Inductive lookup (A : Type) : Type :=
| Found (a : A)
| KeyError (key : String.string).
Arguments Found {A} a.
Arguments KeyError {A} key.

Fixpoint dict_get {A : Type} (d : list (String.string * A)) (k : String.string)
  : lookup A :=
  match d with
  | [] => KeyError k
  | (k', v) :: rest => if String.eqb k' k then Found v else dict_get rest k
  end.

Definition config_dict : list (String.string * Conf.t) :=
  [("nerf"%string, Presets.DefaultConfig);
   ("s-nerf_basic"%string, Presets.SNerfBasicConfig);
   ("s-nerf_full"%string, Presets.SNerfFullConfig)].

(** Python's [sub in s] on strings. *)
Definition contains (sub s : String.string) : bool :=
  match String.index 0 sub s with
  | Some _ => true
  | None => false
  end.

(** [conf.training.lr = lr; conf.training.bs = bs]. *)
Definition set_lr_bs (conf : Conf.t) (lr : R) (bs : Z) : Conf.t :=
  let t := Conf.training conf in
  {| Conf.name := Conf.name conf;
     Conf.training :=
       {| Training.lr := lr; Training.bs := bs;
          Training.workers := Training.workers t;
          Training.weight_decay := Training.weight_decay t;
          Training.chunk := Training.chunk t;
          Training.perturb := Training.perturb t;
          Training.noise_std := Training.noise_std t;
          Training.use_disp := Training.use_disp t;
          Training.lr_scheduler := Training.lr_scheduler t;
          Training.n_epochs := Training.n_epochs t |};
     Conf.model := Conf.model conf;
     Conf.n_samples := Conf.n_samples conf;
     Conf.n_importance := Conf.n_importance conf |}.

(** [conf.input_sizes[1] = 3]. *)
Definition set_blender (conf : Conf.t) : Conf.t :=
  {| Conf.name := Conf.name conf;
     Conf.training := Conf.training conf;
     Conf.model := blender (Conf.model conf);
     Conf.n_samples := Conf.n_samples conf;
     Conf.n_importance := Conf.n_importance conf |}.

(** [load_config(args)]. *)
Definition load_config (args : Args) : lookup Conf.t :=
  match dict_get config_dict (config_name args) with
  | KeyError k => KeyError k
  | Found conf =>
      let conf := if contains "s-nerf" (config_name args)
                  then set_lr_bs conf 1e-4 256 else conf in
      let conf := if String.eqb (dataset_name args) "blender"
                  then set_blender conf else conf in
      Found conf
  end.

(** ** Parts of a batch *)

(** The first [n] columns of [t]: [t[:, :n]]. *)
Definition first_columns (n : nat) (t : tensor) : tensor :=
  Tensor (batch t) n (at_ t).

(** The part of [x] that [forward] treats as positions: the first xyz
    columns when the direction is split off, the whole of [x] otherwise. *)
Definition xyz_part (c : Config.t) (sigma_only : bool) (x : tensor) : tensor :=
  if negb sigma_only && (0 <? snd (Config.input_sizes c))%Z
  then first_columns (Z.to_nat (fst (Config.input_sizes c))) x
  else x.

(** The trunk as the design states it: the running activation starts as
    the encoded xyz features [e]; layer [k] applies its linear transform
    and the activation to the running activation, prefixed by [e] when [k]
    is a skip index.  [trunk_activation c th e n] is the running activation
    after the layers 0, ..., n - 1. *)
Fixpoint trunk_activation (c : Config.t) (th : weights) (e : tensor) (n : nat)
  : tensor :=
  match n with
  | O => e
  | S k =>
      let h := trunk_activation c th e k in
      tmap (act_of (Config.siren c))
           (Linear_apply (trunk_linear c th (Z.of_nat k))
                         (if zin (Z.of_nat k) (Config.skips c) then cat2 e h else h))
  end.

(** A configuration without trunk iterations whose encoded xyz width, 60,
    is its feature width. *)
Definition no_trunk_config : Config.t :=
  {| Config.layers := 0; Config.feat := 60; Config.mapping := true;
     Config.siren := false; Config.skips := [];
     Config.input_sizes := (3, 0)%Z; Config.mapping_sizes := (10, 4)%Z |}.

(** Weights that drive the colour head into saturation: every weight is 0
    and the bias of the last linear layer is 2^25. *)
Definition saturating_weights : weights :=
  {| fc_w := fun _ => zero_init; sigma_w := zero_init; feats_w := zero_init;
     rgb_hidden_w := zero_init;
     rgb_out_w := {| weight0 := fun _ _ => 0; bias0 := fun _ => 2 ^ 25 |} |}.

(** * Facts about lists and concatenation *)

Section ListFacts.
Context {A B : Type}.

Lemma nth_flat_map_uniform (g : A -> list B) (F : nat) (l : list A) (da : A) (db : B) :
  (forall a, length (g a) = F) ->
  forall k j, (k < length l)%nat -> (j < F)%nat ->
  nth (k * F + j) (flat_map g l) db = nth j (g (nth k l da)) db.
Proof.
  intros HF. induction l as [|a l IH]; intros k j Hk Hj; simpl in *; [lia|].
  destruct k as [|k].
  - simpl. rewrite app_nth1 by (rewrite HF; lia). reflexivity.
  - rewrite app_nth2 by (rewrite HF; simpl; lia).
    rewrite HF. replace (S k * F + j - F)%nat with (k * F + j)%nat by (simpl; lia).
    apply IH; lia.
Qed.

Lemma length_flat_map_uniform (g : A -> list B) (F : nat) (l : list A) :
  (forall a, length (g a) = F) -> length (flat_map g l) = (length l * F)%nat.
Proof.
  intros HF. induction l as [|a l IH]; simpl; [reflexivity|].
  rewrite length_app, HF, IH. reflexivity.
Qed.
End ListFacts.

Lemma cat_uniform (B W : nat) (ts : list tensor) :
  ts <> [] ->
  Forall (fun t => batch t = B /\ width t = W) ts ->
  exists y, cat ts = Ok y /\ batch y = B /\ width y = (length ts * W)%nat /\
    forall i c b d, (i < length ts)%nat -> (c < W)%nat ->
      at_ y b (i * W + c) = at_ (nth i ts d) b c.
Proof.
  induction ts as [|t ts IH]; intros Hne Hall; [congruence|].
  inversion Hall as [|? ? [Hb Hw] Hall']; subst.
  destruct ts as [|u ts].
  - exists t. simpl. repeat split; try lia.
    intros i c b d Hi Hc. assert (i = 0)%nat by lia. subst. reflexivity.
  - destruct IH as (y & Hy & Hby & Hwy & Hat); [congruence|assumption|].
    exists (cat2 t y). change (cat (t :: u :: ts)) with
      (u0 <- cat (u :: ts) ;; if (batch t =? batch u0)%nat then Ok (cat2 t u0) else Err ShapeMismatch)%res.
    rewrite Hy. cbn [rbind]. rewrite Hby, Nat.eqb_refl.
    repeat split.
    + cbn [cat2 width]. rewrite Hwy. reflexivity.
    + intros i c b d Hi Hc. cbn [cat2 at_].
      destruct i as [|i].
      * replace (0 * width t + c)%nat with c by lia.
        assert (Hlt : (c <? width t)%nat = true) by (apply Nat.ltb_lt; lia).
        rewrite Hlt. reflexivity.
      * assert (Hge : (S i * width t + c <? width t)%nat = false) by (apply Nat.ltb_ge; simpl; lia).
        rewrite Hge. replace (S i * width t + c - width t)%nat with (i * width t + c)%nat by (simpl; lia).
        apply (Hat i c b d); [simpl in Hi |- *; lia | lia].
Qed.

Lemma nth_map_seq {B : Type} (f : nat -> B) (n k : nat) (d : B) :
  (k < n)%nat -> nth k (map f (seq 0 n)) d = f k.
Proof.
  intros Hk.
  rewrite (nth_indep _ d (f 0%nat)) by (rewrite length_map, length_seq; exact Hk).
  rewrite (map_nth f), seq_nth by exact Hk. reflexivity.
Qed.

(** * The frequency encoder *)

Lemma linspace_nth (a b : R) (N : Z) :
  (0 <= N)%Z ->
  exists l, linspace a b N = Ok l /\ length l = Z.to_nat N /\
    forall k, (k < Z.to_nat N)%nat ->
      nth k l 0 = if (N =? 1)%Z then a
                  else a + INR k * ((b - a) / (IZR N - 1)).
Proof.
  intros HN. unfold linspace.
  assert (HN' : (N <? 0)%Z = false) by (apply Z.ltb_ge; lia).
  rewrite HN'. destruct (N =? 1)%Z eqn:H1.
  - apply Z.eqb_eq in H1. subst N. exists [a]. repeat split.
    intros k Hk. assert (k = 0)%nat by (simpl in Hk; lia). subst. reflexivity.
  - eexists. split; [reflexivity|]. split.
    + rewrite length_map, length_seq. reflexivity.
    + intros k Hk. rewrite nth_map_seq by exact Hk. reflexivity.
Qed.

Lemma linspace_neg (a b : R) (N : Z) :
  (N < 0)%Z -> linspace a b N = Err NegativeSize.
Proof.
  intros HN. unfold linspace.
  assert (HN' : (N <? 0)%Z = true) by (apply Z.ltb_lt; lia).
  rewrite HN'. reflexivity.
Qed.

(** The log-scale bands are the powers of two. *)
Lemma logscale_bands (N : Z) :
  (0 <= N)%Z ->
  exists l, linspace 0 (IZR (N - 1)) N = Ok l /\
            map (Rpower 2) l = map (fun k => 2 ^ k) (seq 0 (Z.to_nat N)).
Proof.
  intros HN. destruct (linspace_nth 0 (IZR (N - 1)) N HN) as (l & Hl & Hlen & Hnth).
  exists l. split; [exact Hl|].
  apply nth_ext with (d := Rpower 2 0) (d' := 0).
  - rewrite !length_map, length_seq. exact Hlen.
  - intros k Hk. rewrite length_map, Hlen in Hk.
    rewrite nth_map_seq by exact Hk. rewrite (map_nth (Rpower 2)), (Hnth k Hk).
    destruct (N =? 1)%Z eqn:H1.
    + apply Z.eqb_eq in H1. subst N. assert (k = 0)%nat by (simpl in Hk; lia). subst.
      rewrite Rpower_O by lra. reflexivity.
    + apply Z.eqb_neq in H1.
      assert (Hk1 : k = 0%nat \/ (2 <= N)%Z) by lia.
      destruct Hk1 as [->|H2].
      * simpl INR. replace (0 + 0 * _) with 0 by lra. rewrite Rpower_O by lra. reflexivity.
      * rewrite minus_IZR.
        assert (Hnz : IZR N - 1 <> 0).
        { apply IZR_le in H2. lra. }
        replace (0 + INR k * ((IZR N - 1 - 0) / (IZR N - 1))) with (INR k) by (field; exact Hnz).
        apply Rpower_pow. lra.
Qed.

Lemma Mapping_init_ok (N c : Z) (ls : bool) :
  (0 <= N)%Z ->
  exists m, Mapping_init N c ls = Ok m /\ funcs m = [sin; cos] /\
            N_freqs m = N /\ in_channels m = c /\
            out_channels m = (c * (2 * N + 1))%Z /\
            length (freq_bands m) = Z.to_nat N.
Proof.
  intros HN. unfold Mapping_init. destruct ls.
  - destruct (linspace_nth 0 (IZR (N - 1)) N HN) as (l & Hl & Hlen & _).
    rewrite Hl. cbn [rbind]. eexists. split; [reflexivity|].
    cbn. rewrite length_map. repeat split; assumption.
  - destruct (linspace_nth 1 (powerRZ 2 (N - 1)) N HN) as (l & Hl & Hlen & _).
    rewrite Hl. cbn [rbind]. eexists. split; [reflexivity|].
    cbn. repeat split; assumption.
Qed.

Lemma Mapping_init_neg (N c : Z) (ls : bool) :
  (N < 0)%Z -> Mapping_init N c ls = Err NegativeSize.
Proof.
  intros HN. unfold Mapping_init. destruct ls; rewrite linspace_neg by exact HN; reflexivity.
Qed.

(** The list [out] of [Mapping.forward]: block [k * F + j] is function [j]
    of band [k] times the input. *)
Lemma Mapping_out_nth (m : Mapping) (x : tensor) (k j : nat) (d : tensor) :
  (k < length (freq_bands m))%nat -> (j < length (funcs m))%nat ->
  nth (k * length (funcs m) + j) (Mapping_out m x) d =
  tmap (fun v => nth j (funcs m) (fun r => r) (nth k (freq_bands m) 0 * v)) x.
Proof.
  intros Hk Hj. unfold Mapping_out.
  rewrite (nth_flat_map_uniform _ (length (funcs m)) _ 0 d)
    by (try (intros; apply length_map); assumption).
  set (g := fun func : R -> R => tmap (fun v => func (nth k (freq_bands m) 0 * v)) x).
  rewrite (nth_indep _ d (g (fun r => r))) by (rewrite length_map; exact Hj).
  apply (map_nth g).
Qed.

Lemma Mapping_out_length (m : Mapping) (x : tensor) :
  length (Mapping_out m x) = (length (freq_bands m) * length (funcs m))%nat.
Proof.
  unfold Mapping_out. apply length_flat_map_uniform. intros. apply length_map.
Qed.

Lemma Mapping_out_uniform (m : Mapping) (x : tensor) :
  Forall (fun t => batch t = batch x /\ width t = width x) (Mapping_out m x).
Proof.
  unfold Mapping_out. apply Forall_forall. intros t Ht.
  apply in_flat_map in Ht. destruct Ht as (f & _ & Ht).
  apply in_map_iff in Ht. destruct Ht as (g & <- & _). split; reflexivity.
Qed.

(** [Mapping.forward] on an encoder with at least one band and one
    function: the shape of the output and every entry of it. *)
Lemma Mapping_forward_spec (m : Mapping) (x : tensor) :
  (0 < length (freq_bands m))%nat -> (0 < length (funcs m))%nat ->
  exists y, Mapping_forward m x = Ok y /\ batch y = batch x /\
    width y = (length (freq_bands m) * length (funcs m) * width x)%nat /\
    forall k j b c, (k < length (freq_bands m))%nat -> (j < length (funcs m))%nat ->
      (c < width x)%nat ->
      at_ y b ((k * length (funcs m) + j) * width x + c) =
      nth j (funcs m) (fun r => r) (nth k (freq_bands m) 0 * at_ x b c).
Proof.
  intros Hb Hf. unfold Mapping_forward.
  destruct (cat_uniform (batch x) (width x) (Mapping_out m x)) as (y & Hy & Hby & Hwy & Hat).
  - intros Hnil. apply (f_equal (@length tensor)) in Hnil.
    rewrite Mapping_out_length in Hnil. simpl in Hnil. nia.
  - apply Mapping_out_uniform.
  - exists y. rewrite Mapping_out_length in Hwy. repeat split; try assumption.
    intros k j b c Hk Hj Hc.
    rewrite (Hat _ c b x) by (try rewrite Mapping_out_length; nia || assumption).
    rewrite Mapping_out_nth by assumption. reflexivity.
Qed.

(** The linearly spaced bands, from 1 to 2^(N-1). *)
Lemma linear_bands (N : Z) :
  (1 <= N)%Z ->
  exists l, linspace 1 (powerRZ 2 (N - 1)) N = Ok l /\ length l = Z.to_nat N /\
    forall k, (k < Z.to_nat N)%nat ->
      nth k l 0 = if (N =? 1)%Z then 1
                  else 1 + INR k * ((2 ^ Z.to_nat (N - 1) - 1) / IZR (N - 1)).
Proof.
  intros HN.
  destruct (linspace_nth 1 (powerRZ 2 (N - 1)) N) as (l & Hl & Hlen & Hnth); [lia|].
  exists l. repeat split; try assumption.
  intros k Hk. rewrite (Hnth k Hk). destruct (N =? 1)%Z; [reflexivity|].
  rewrite minus_IZR. rewrite <- (Z2Nat.id (N - 1)) at 1 by lia.
  rewrite <- pow_powerRZ. reflexivity.
Qed.

Lemma pow2_gt_1 (n : nat) : (0 < n)%nat -> 1 < 2 ^ n.
Proof. intros Hn. apply Rlt_pow_R1; [lra|exact Hn]. Qed.

(** In both modes the bands are in strictly ascending order. *)
Lemma freq_bands_ascending (N c : Z) (ls : bool) (m : Mapping) :
  (1 <= N)%Z -> Mapping_init N c ls = Ok m ->
  forall k, (S k < Z.to_nat N)%nat ->
    nth k (freq_bands m) 0 < nth (S k) (freq_bands m) 0.
Proof.
  intros HN Hm k Hk. unfold Mapping_init in Hm. destruct ls.
  - destruct (logscale_bands N) as (l & Hl & Hmap); [lia|].
    rewrite Hl in Hm. cbn [rbind] in Hm. injection Hm as <-. cbn [freq_bands].
    rewrite Hmap, !nth_map_seq by lia. simpl.
    assert (0 < 2 ^ k) by (apply pow_lt; lra). lra.
  - destruct (linear_bands N HN) as (l & Hl & _ & Hnth).
    rewrite Hl in Hm. cbn [rbind] in Hm. injection Hm as <-. cbn [freq_bands].
    rewrite !Hnth by lia.
    assert (H1 : (N =? 1)%Z = false) by (apply Z.eqb_neq; lia). rewrite H1.
    assert (Hd : 0 < IZR (N - 1)) by (apply IZR_lt; lia).
    assert (Hp : 1 < 2 ^ Z.to_nat (N - 1)) by (apply pow2_gt_1; lia).
    assert (Hs : 0 < (2 ^ Z.to_nat (N - 1) - 1) / IZR (N - 1)).
    { apply Rdiv_lt_0_compat; lra. }
    rewrite S_INR. nra.
Qed.

(** ** C1 *)

(** C1: for an encoder built with num_freqs >= 1 and in_channels >= 1 (in
    either band mode) and an input of shape (B, in_channels), forward
    returns a tensor of shape (B, in_channels * 2 * num_freqs) whose block
    number 2*k + j (of in_channels columns each) is sin (j = 0) or cos
    (j = 1) of band k times the input, the bands being taken in their
    ascending order. *)
Theorem Mapping_forward_shape_and_order (N c : Z) (ls : bool) (x : tensor) :
  (1 <= N)%Z -> (1 <= c)%Z -> shape x = (batch x, Z.to_nat c) ->
  exists m y,
    Mapping_init N c ls = Ok m /\ Mapping_forward m x = Ok y /\
    shape y = (batch x, Z.to_nat (c * 2 * N)) /\
    (forall k j b ch,
        (k < Z.to_nat N)%nat -> (j < 2)%nat -> (ch < Z.to_nat c)%nat ->
        at_ y b ((2 * k + j) * Z.to_nat c + ch) =
        nth j [sin; cos] (fun r => r) (nth k (freq_bands m) 0 * at_ x b ch)) /\
    (forall k, (S k < Z.to_nat N)%nat ->
        nth k (freq_bands m) 0 < nth (S k) (freq_bands m) 0).
Proof.
  intros HN Hc Hx. injection Hx as Hw.
  destruct (Mapping_init_ok N c ls) as (m & Hm & Hf & _ & _ & _ & Hlen); [lia|].
  destruct (Mapping_forward_spec m x) as (y & Hy & Hby & Hwy & Hat).
  - rewrite Hlen. lia.
  - rewrite Hf. simpl. lia.
  - exists m, y. rewrite Hf, Hlen in *. cbn [length] in *.
    repeat split; try assumption.
    + unfold shape. rewrite Hby, Hwy, Hw. f_equal. nia.
    + intros k j b ch Hk Hj Hch. rewrite <- Hw in *.
      rewrite <- (Hat k j b ch) by assumption. f_equal. lia.
    + apply (freq_bands_ascending N c ls m HN Hm).
Qed.

Lemma Mapping_forward_shape_and_order_witness :
  (1 <= 10)%Z /\ (1 <= 3)%Z /\
  shape (zeros 2 3) = (batch (zeros 2 3), Z.to_nat 3) /\
  exists m y,
    Mapping_init 10 3 true = Ok m /\
    Mapping_forward m (zeros 2 3) = Ok y /\
    shape y = (2%nat, 60%nat).
Proof.
  split; [lia|]. split; [lia|]. split; [reflexivity|].
  destruct (Mapping_forward_shape_and_order 10 3 true (zeros 2 3))
    as (m & y & Hm & Hy & Hs & _); [lia | lia | reflexivity |].
  exists m, y. repeat split; assumption.
Defined.

(** ** C2 *)

(** [out_channels] as [Mapping.__init__] computes it: the raw input is
    counted. *)
Lemma Mapping_out_channels (N c : Z) (ls : bool) (m : Mapping) :
  Mapping_init N c ls = Ok m -> out_channels m = (c * (2 * N + 1))%Z.
Proof.
  intros Hm. destruct (Z.neg_nonneg_cases N) as [Hn|Hn].
  - rewrite Mapping_init_neg in Hm by exact Hn. discriminate.
  - destruct (Mapping_init_ok N c ls Hn) as (m' & Hm' & _ & _ & _ & Ho & _).
    congruence.
Qed.

(** C2 (the code at the failing input): an encoder built with 10
    frequencies on 3 channels declares out_channels = 63, not 3 * (2 * 10)
    = 60, while its forward output is 60 columns wide. *)
Theorem Mapping_out_channels_counts_raw_input :
  exists m,
    Mapping_init 10 3 true = Ok m /\
    out_channels m = 63%Z /\
    out_channels m <> (3 * (2 * 10))%Z /\
    forall x, width x = 3%nat ->
      exists y, Mapping_forward m x = Ok y /\ width y = 60%nat.
Proof.
  destruct (Mapping_init_ok 10 3 true) as (m & Hm & Hf & _ & _ & Ho & Hlen); [lia|].
  exists m. split; [exact Hm|]. split; [exact Ho|]. split; [rewrite Ho; lia|].
  intros x Hx. destruct (Mapping_forward_spec m x) as (y & Hy & _ & Hwy & _).
  - rewrite Hlen. simpl. lia.
  - rewrite Hf. simpl. lia.
  - exists y. split; [exact Hy|]. rewrite Hwy, Hlen, Hf, Hx. reflexivity.
Qed.

(** * The constructor *)

Lemma Linear_init_ok (i o : Z) (p : init) :
  (0 <= i)%Z -> (0 <= o)%Z -> Linear_init i o p = Ok (Linear_of i o p).
Proof.
  intros Hi Ho. unfold Linear_init.
  assert (H : ((i <? 0) || (o <? 0))%Z = false).
  { apply orb_false_iff. split; apply Z.ltb_ge; assumption. }
  rewrite H. reflexivity.
Qed.

Lemma Linear_init_neg (i o : Z) (p : init) :
  (i < 0 \/ o < 0)%Z -> Linear_init i o p = Err NegativeSize.
Proof.
  intros H. unfold Linear_init.
  assert (H' : ((i <? 0) || (o <? 0))%Z = true).
  { apply orb_true_iff. destruct H; [left|right]; apply Z.ltb_lt; assumption. }
  rewrite H'. reflexivity.
Qed.

Lemma range_length (a b : Z) : length (range a b) = Z.to_nat (b - a).
Proof. unfold range. rewrite length_map, length_seq. reflexivity. Qed.

Lemma range_nth (a b : Z) (k : nat) (d : Z) :
  (k < Z.to_nat (b - a))%nat -> nth k (range a b) d = (a + Z.of_nat k)%Z.
Proof.
  intros Hk. unfold range.
  exact (nth_map_seq (fun j => (a + Z.of_nat j)%Z) _ k d Hk).
Qed.

Lemma range_In (a b i : Z) : In i (range a b) <-> (a <= i < b)%Z.
Proof.
  unfold range. rewrite in_map_iff. split.
  - intros (k & <- & Hk). apply in_seq in Hk. lia.
  - intros Hi. exists (Z.to_nat (i - a)). split; [lia|]. apply in_seq. lia.
Qed.

Lemma range_cons (a b : Z) :
  (a < b)%Z -> range a b = a :: range (a + 1) b.
Proof.
  intros Hab. unfold range.
  replace (Z.to_nat (b - a)) with (S (Z.to_nat (b - (a + 1)))) by lia.
  cbn [seq map]. f_equal; [lia|].
  rewrite <- seq_shift, map_map. apply map_ext. intros k. lia.
Qed.

Lemma range_empty (a b : Z) : (b <= a)%Z -> range a b = [].
Proof.
  intros Hab. unfold range. replace (Z.to_nat (b - a)) with 0%nat by lia. reflexivity.
Qed.

Lemma flat_map_ext_in {A B : Type} (f g : A -> list B) (l : list A) :
  (forall a, In a l -> f a = g a) -> flat_map f l = flat_map g l.
Proof.
  induction l as [|a l IH]; intros H; simpl; [reflexivity|].
  rewrite (H a) by (left; reflexivity). rewrite IH; [reflexivity|].
  intros b Hb. apply H. right. exact Hb.
Qed.

(** The loop of the constructor never raises once layer 0 has been built,
    and appends one (linear, activation) pair per index. *)
Lemma fc_loop_spec (feat in0 : Z) (sk : list Z) (nl : module) (w : Z -> init)
      (idx : list Z) (acc : list module) :
  (0 <= feat)%Z -> (0 <= in0)%Z ->
  fc_loop feat in0 sk nl w idx acc =
  Ok (acc ++ flat_map (fun i => [MLinear (Linear_of (if zin i sk then feat + in0 else feat)%Z
                                                    feat (w i)); nl]) idx).
Proof.
  intros Hf Hi. revert acc. induction idx as [|i idx IH]; intros acc.
  - simpl. rewrite app_nil_r. reflexivity.
  - cbn [fc_loop flat_map].
    replace (if zin i sk then Linear_init (feat + in0) feat (w i)
             else Linear_init feat feat (w i))
      with (Ok (Linear_of (if zin i sk then feat + in0 else feat)%Z feat (w i))).
    + cbn [rbind]. rewrite IH, <- app_assoc. reflexivity.
    + destruct (zin i sk); rewrite Linear_init_ok by lia; reflexivity.
Qed.

Lemma trunk_layers_unfold (c : Config.t) (th : weights) :
  fc_net (model_of c th (MSiren, MSiren)) =
  [MLinear (Linear_of (fst (in_size c)) (Config.feat c) (fc_w th 0%Z));
   activation (Config.siren c)] ++
  flat_map (fun i => [MLinear (Linear_of (if zin i (Config.skips c)
                                          then Config.feat c + fst (in_size c)
                                          else Config.feat c)%Z
                                         (Config.feat c) (fc_w th i));
                      activation (Config.siren c)])
           (range 1 (Config.layers c)).
Proof.
  cbn [model_of fc_net].
  assert (Hr : range 0 (Z.max 1 (Config.layers c)) = 0%Z :: range 1 (Config.layers c)).
  { rewrite range_cons by lia. f_equal. simpl Z.add.
    destruct (Z.le_gt_cases (Config.layers c) 1) as [H|H].
    - rewrite Z.max_l by lia. rewrite !range_empty by lia. reflexivity.
    - rewrite Z.max_r by lia. reflexivity. }
  rewrite Hr. cbn [flat_map app]. f_equal. f_equal.
  apply flat_map_ext_in. intros i Hi. apply range_In in Hi.
  unfold trunk_linear, trunk_in_width.
  assert (H0 : (i =? 0)%Z = false) by (apply Z.eqb_neq; lia).
  rewrite H0. reflexivity.
Qed.

Lemma encoders_ok (c : Config.t) :
  buildable c = true -> exists enc, encoders c = Ok enc.
Proof.
  unfold buildable, encoders. intros Hb.
  destruct (Config.input_sizes c) as [xyz dir], (Config.mapping_sizes c) as [fx fd].
  cbn [fst snd] in Hb. destruct (Config.mapping c); [|eexists; reflexivity].
  cbn [negb orb] in Hb. rewrite !andb_true_iff in Hb.
  destruct Hb as [[[[Hx Hd] _] _] _]. apply Z.leb_le in Hx, Hd.
  destruct (Mapping_init_ok fx xyz true Hx) as (m0 & H0 & _).
  destruct (Mapping_init_ok fd dir true Hd) as (m1 & H1 & _).
  rewrite H0, H1. eexists. reflexivity.
Qed.

(** [NeRF.__init__] in closed form: it raises exactly when a frequency
    count or a layer size is negative, and otherwise returns the module
    object described by [model_of]. *)
Lemma NeRF_init_eq (c : Config.t) (th : weights) :
  NeRF_init c th =
  if buildable c then (enc <- encoders c ;; Ok (model_of c th enc))%res
  else Err NegativeSize.
Proof.
  pose proof (trunk_layers_unfold c th) as Hfc.
  unfold NeRF_init, buildable, encoders, model_of in *. unfold in_size in *.
  destruct (Config.input_sizes c) as [xyz dir], (Config.mapping_sizes c) as [fx fd].
  cbn [fst snd fc_net] in *.
  destruct (Config.mapping c); cbn [negb orb andb]; cbn [fst snd] in Hfc.
  - destruct (Z.neg_nonneg_cases fx) as [Hx|Hx].
    { rewrite Mapping_init_neg by exact Hx. cbn [rbind].
      assert (H : (0 <=? fx)%Z = false) by (apply Z.leb_gt; exact Hx).
      rewrite H. reflexivity. }
    destruct (Mapping_init_ok fx xyz true Hx) as (m0 & H0 & _). rewrite H0. cbn [rbind].
    assert (Hx' : (0 <=? fx)%Z = true) by (apply Z.leb_le; exact Hx). rewrite Hx'.
    destruct (Z.neg_nonneg_cases fd) as [Hd|Hd].
    { rewrite Mapping_init_neg by exact Hd. cbn [rbind].
      assert (H : (0 <=? fd)%Z = false) by (apply Z.leb_gt; exact Hd).
      rewrite H. reflexivity. }
    destruct (Mapping_init_ok fd dir true Hd) as (m1 & H1 & _). rewrite H1. cbn [rbind fst snd].
    assert (Hd' : (0 <=? fd)%Z = true) by (apply Z.leb_le; exact Hd). rewrite Hd'.
    cbn [andb].
    destruct (Z.neg_nonneg_cases (2 * fx * xyz)) as [Hi|Hi].
    { rewrite Linear_init_neg by (left; exact Hi). cbn [rbind].
      assert (H : (0 <=? 2 * fx * xyz)%Z = false) by (apply Z.leb_gt; exact Hi).
      rewrite H. reflexivity. }
    assert (Hi' : (0 <=? 2 * fx * xyz)%Z = true) by (apply Z.leb_le; exact Hi). rewrite Hi'.
    destruct (Z.neg_nonneg_cases (Config.feat c)) as [Hf|Hf].
    { rewrite Linear_init_neg by (right; exact Hf). cbn [rbind].
      assert (H : (0 <=? Config.feat c)%Z = false) by (apply Z.leb_gt; exact Hf).
      rewrite H. reflexivity. }
    assert (Hf' : (0 <=? Config.feat c)%Z = true) by (apply Z.leb_le; exact Hf). rewrite Hf'.
    rewrite Linear_init_ok by assumption. cbn [rbind andb].
    rewrite fc_loop_spec by assumption. cbn [rbind].
    rewrite !Linear_init_ok by lia. cbn [rbind].
    destruct (Z.neg_nonneg_cases (Config.feat c + 2 * fd * dir)) as [Ho|Ho].
    { rewrite Linear_init_neg by (left; exact Ho). cbn [rbind].
      assert (H : (0 <=? Config.feat c + 2 * fd * dir)%Z = false) by (apply Z.leb_gt; exact Ho).
      rewrite H. reflexivity. }
    assert (Ho' : (0 <=? Config.feat c + 2 * fd * dir)%Z = true) by (apply Z.leb_le; exact Ho).
    rewrite Ho'.
    assert (Hh : (0 <= Config.feat c / 2)%Z) by (apply Z.div_pos; lia).
    rewrite !Linear_init_ok by lia. cbn [rbind]. rewrite <- Hfc. reflexivity.
  - cbn [rbind fst snd].
    destruct (Z.neg_nonneg_cases xyz) as [Hi|Hi].
    { rewrite Linear_init_neg by (left; exact Hi). cbn [rbind].
      assert (H : (0 <=? xyz)%Z = false) by (apply Z.leb_gt; exact Hi).
      rewrite H. reflexivity. }
    assert (Hi' : (0 <=? xyz)%Z = true) by (apply Z.leb_le; exact Hi). rewrite Hi'.
    destruct (Z.neg_nonneg_cases (Config.feat c)) as [Hf|Hf].
    { rewrite Linear_init_neg by (right; exact Hf). cbn [rbind].
      assert (H : (0 <=? Config.feat c)%Z = false) by (apply Z.leb_gt; exact Hf).
      rewrite H. reflexivity. }
    assert (Hf' : (0 <=? Config.feat c)%Z = true) by (apply Z.leb_le; exact Hf). rewrite Hf'.
    rewrite Linear_init_ok by assumption. cbn [rbind andb].
    rewrite fc_loop_spec by assumption. cbn [rbind].
    rewrite !Linear_init_ok by lia. cbn [rbind].
    destruct (Z.neg_nonneg_cases (Config.feat c + dir)) as [Ho|Ho].
    { rewrite Linear_init_neg by (left; exact Ho). cbn [rbind].
      assert (H : (0 <=? Config.feat c + dir)%Z = false) by (apply Z.leb_gt; exact Ho).
      rewrite H. reflexivity. }
    assert (Ho' : (0 <=? Config.feat c + dir)%Z = true) by (apply Z.leb_le; exact Ho).
    rewrite Ho'.
    assert (Hh : (0 <= Config.feat c / 2)%Z) by (apply Z.div_pos; lia).
    rewrite !Linear_init_ok by lia. cbn [rbind]. rewrite <- Hfc. reflexivity.
Qed.

(** * The forward pass reads the module object and never writes it *)

Lemma trunk_run (self : NeRF) (enc : tensor) (idx : list Z) (h : tensor) :
  trunk enc idx h self = (trunk_from self enc idx h, self).
Proof.
  revert h. induction idx as [|i idx IH]; intros h; [reflexivity|].
  cbn [trunk trunk_from]. unfold trunk_step, bind, attr, call, ret.
  destruct (zin i (skips self)).
  - destruct (cat [enc; h]) as [h1|e]; [|reflexivity]. cbn [rbind].
    destruct (Sequential_get (fc_net self) (2 * i)) as [l|e]; [|reflexivity]. cbn [rbind].
    destruct (module_forward l h1) as [h2|e]; [|reflexivity]. cbn [rbind].
    destruct (Sequential_get (fc_net self) (2 * i + 1)) as [l'|e]; [|reflexivity]. cbn [rbind].
    destruct (module_forward l' h2) as [h3|e]; [|reflexivity]. apply IH.
  - cbn [rbind].
    destruct (Sequential_get (fc_net self) (2 * i)) as [l|e]; [|reflexivity]. cbn [rbind].
    destruct (module_forward l h) as [h2|e]; [|reflexivity]. cbn [rbind].
    destruct (Sequential_get (fc_net self) (2 * i + 1)) as [l'|e]; [|reflexivity]. cbn [rbind].
    destruct (module_forward l' h2) as [h3|e]; [|reflexivity]. apply IH.
Qed.

(** [forward] returns [forward_result] and leaves [self] as it was, whether
    it returns or raises. *)
Lemma forward_run (self : NeRF) (x : tensor) (input_dir : option tensor)
      (sigma_only : bool) :
  forward x input_dir sigma_only self =
  (forward_result self x input_dir sigma_only, self).
Proof.
  unfold forward, forward_result, inputs, density, color, bind, attr, call, ret.
  destruct (negb sigma_only && (0 <? snd (input_sizes self))%Z).
  - destruct (split x (fst (input_sizes self)) (snd (input_sizes self)))
      as [[a b]|e]; [|reflexivity]. cbn [rbind].
    destruct (module_forward (fst (mapping self)) a) as [enc|e]; [|reflexivity]. cbn [rbind].
    rewrite trunk_run.
    destruct (trunk_from self enc (range 0 (layers self)) enc) as [sh|e]; [|reflexivity].
    cbn [rbind].
    destruct (Sequential_forward (sigma_from_xyz self) sh) as [sg|e]; [|reflexivity].
    cbn [rbind]. destruct sigma_only; [reflexivity|].
    destruct (Sequential_forward (feats_from_xyz self) sh) as [ft|e]; [|reflexivity].
    cbn [rbind]. destruct (0 <? snd (input_sizes self))%Z.
    + destruct (module_forward (snd (mapping self)) b) as [d|e]; [|reflexivity]. cbn [rbind].
      destruct (cat [ft; d]) as [xd|e]; [|reflexivity]. cbn [rbind].
      destruct (Sequential_forward (rgb_from_xyzdir self) xd) as [rgb|e]; reflexivity.
    + cbn [rbind].
      destruct (Sequential_forward (rgb_from_xyzdir self) ft) as [rgb|e]; reflexivity.
  - cbn [rbind].
    destruct (module_forward (fst (mapping self)) x) as [enc|e]; [|reflexivity]. cbn [rbind].
    rewrite trunk_run.
    destruct (trunk_from self enc (range 0 (layers self)) enc) as [sh|e]; [|reflexivity].
    cbn [rbind].
    destruct (Sequential_forward (sigma_from_xyz self) sh) as [sg|e]; [|reflexivity].
    cbn [rbind]. destruct sigma_only; [reflexivity|].
    destruct (Sequential_forward (feats_from_xyz self) sh) as [ft|e]; [|reflexivity].
    cbn [rbind]. destruct (0 <? snd (input_sizes self))%Z.
    + destruct (match input_dir with
                | Some d => module_forward (snd (mapping self)) d
                | None => Err TypeError
                end) as [d|e]; [|reflexivity]. cbn [rbind].
      destruct (cat [ft; d]) as [xd|e]; [|reflexivity]. cbn [rbind].
      destruct (Sequential_forward (rgb_from_xyzdir self) xd) as [rgb|e]; reflexivity.
    + cbn [rbind].
      destruct (Sequential_forward (rgb_from_xyzdir self) ft) as [rgb|e]; reflexivity.
Qed.

Lemma run_forward (self : NeRF) (x : tensor) (input_dir : option tensor)
      (sigma_only : bool) :
  run (forward x input_dir sigma_only) self =
  forward_result self x input_dir sigma_only.
Proof. unfold run. rewrite forward_run. reflexivity. Qed.

(** * The layers of a constructed model *)

Lemma Linear_forward_ok (l : Linear) (x : tensor) :
  width x = in_features l -> Linear_forward l x = Ok (Linear_apply l x).
Proof.
  intros H. unfold Linear_forward. rewrite H, Nat.eqb_refl. reflexivity.
Qed.

Lemma Linear_forward_mismatch (l : Linear) (x : tensor) :
  width x <> in_features l -> Linear_forward l x = Err ShapeMismatch.
Proof.
  intros H. unfold Linear_forward.
  apply Nat.eqb_neq in H. rewrite H. reflexivity.
Qed.

Lemma activation_forward (s : bool) (x : tensor) :
  module_forward (activation s) x = Ok (tmap (act_of s) x).
Proof. destruct s; reflexivity. Qed.

Lemma cat_pair (t u : tensor) :
  cat [t; u] = if (batch t =? batch u)%nat then Ok (cat2 t u) else Err ShapeMismatch.
Proof. reflexivity. Qed.

(** The pair number [i] of the trunk: its linear transform and the
    activation. *)
Lemma fc_net_get (c : Config.t) (th : weights) (enc : module * module) (i : Z) :
  (0 <= i < Z.max 1 (Config.layers c))%Z ->
  Sequential_get (fc_net (model_of c th enc)) (2 * i) = Ok (MLinear (trunk_linear c th i)) /\
  Sequential_get (fc_net (model_of c th enc)) (2 * i + 1) = Ok (activation (Config.siren c)).
Proof.
  intros Hi. cbn [model_of fc_net].
  set (g := fun j : Z => [MLinear (trunk_linear c th j); activation (Config.siren c)]).
  set (M := Z.max 1 (Config.layers c)) in *.
  assert (Hg : forall a, length (g a) = 2%nat) by reflexivity.
  assert (Hlen : length (flat_map g (range 0 M)) = (Z.to_nat M * 2)%nat).
  { rewrite (length_flat_map_uniform g 2) by exact Hg.
    rewrite range_length. f_equal. lia. }
  assert (Hk : (Z.to_nat i < length (range 0 M))%nat) by (rewrite range_length; lia).
  assert (Hn : nth (Z.to_nat i) (range 0 M) 0%Z = i).
  { rewrite range_nth by lia. lia. }
  unfold Sequential_get. cbv zeta. split.
  - assert (H0 : (2 * i <? 0)%Z = false) by (apply Z.ltb_ge; lia). rewrite !H0.
    rewrite (nth_error_nth' _ MReLU) by (rewrite Hlen; lia).
    replace (Z.to_nat (2 * i)) with (Z.to_nat i * 2 + 0)%nat by lia.
    rewrite (nth_flat_map_uniform g 2 _ 0%Z MReLU Hg) by (assumption || lia).
    rewrite Hn. reflexivity.
  - assert (H0 : (2 * i + 1 <? 0)%Z = false) by (apply Z.ltb_ge; lia). rewrite !H0.
    rewrite (nth_error_nth' _ MReLU) by (rewrite Hlen; lia).
    replace (Z.to_nat (2 * i + 1)) with (Z.to_nat i * 2 + 1)%nat by lia.
    rewrite (nth_flat_map_uniform g 2 _ 0%Z MReLU Hg) by (assumption || lia).
    rewrite Hn. reflexivity.
Qed.

(** One iteration of the trunk loop on a constructed model. *)
Lemma trunk_step_model (c : Config.t) (th : weights) (enc : module * module)
      (e h : tensor) (i : Z) :
  (0 <= i < Z.max 1 (Config.layers c))%Z ->
  trunk_step (model_of c th enc) e i h =
  (h1 <- (if zin i (Config.skips c) then cat [e; h] else Ok h) ;;
   z <- Linear_forward (trunk_linear c th i) h1 ;;
   Ok (tmap (act_of (Config.siren c)) z))%res.
Proof.
  intros Hi. unfold trunk_step.
  destruct (fc_net_get c th enc i Hi) as [H0 H1]. rewrite H0, H1.
  cbn [model_of skips rbind module_forward].
  destruct (if zin i (Config.skips c) then cat [e; h] else Ok h) as [h1|err];
    [|reflexivity].
  cbn [rbind]. destruct (Linear_forward (trunk_linear c th i) h1) as [z|err];
    [|reflexivity].
  cbn [rbind]. apply activation_forward.
Qed.

Section Trunk.
Variables (c : Config.t) (th : weights) (enc : module * module).
Hypothesis Hfeat : (0 <= Config.feat c)%Z.
Hypothesis Hin0 : (0 <= fst (in_size c))%Z.

Let self := model_of c th enc.
Let feat := Z.to_nat (Config.feat c).
Let in0 := Z.to_nat (fst (in_size c)).

(** Layer 0 when 0 is not a skip index: the encoded input goes straight
    through the first linear transform. *)
Lemma trunk_step_first (e h : tensor) :
  zin 0 (Config.skips c) = false -> width h = in0 ->
  trunk_step self e 0 h =
  Ok (tmap (act_of (Config.siren c)) (Linear_apply (trunk_linear c th 0) h)).
Proof.
  intros H0 Hw. unfold self. rewrite trunk_step_model by lia.
  rewrite H0. cbn [rbind]. rewrite Linear_forward_ok; [reflexivity|].
  unfold trunk_linear, trunk_in_width. cbn. exact Hw.
Qed.

(** Layer i >= 1: the running activation, prefixed by the encoded xyz
    features when i is a skip index, goes through the linear transform. *)
Lemma trunk_step_inner (e h : tensor) (i : Z) :
  (1 <= i < Config.layers c)%Z ->
  batch e = batch h -> width e = in0 -> width h = feat ->
  trunk_step self e i h =
  Ok (tmap (act_of (Config.siren c))
           (Linear_apply (trunk_linear c th i)
                         (if zin i (Config.skips c) then cat2 e h else h))).
Proof.
  intros Hi Hb He Hh. unfold self. rewrite trunk_step_model by lia.
  assert (Hi0 : (i =? 0)%Z = false) by (apply Z.eqb_neq; lia).
  destruct (zin i (Config.skips c)) eqn:Hs.
  - rewrite cat_pair, Hb, Nat.eqb_refl. cbn [rbind].
    rewrite Linear_forward_ok; [reflexivity|].
    unfold trunk_linear, trunk_in_width. rewrite Hi0, Hs. cbn.
    rewrite He, Hh. unfold in0, feat. lia.
  - cbn [rbind]. rewrite Linear_forward_ok; [reflexivity|].
    unfold trunk_linear, trunk_in_width. rewrite Hi0, Hs. cbn. exact Hh.
Qed.

Lemma trunk_from_inner (e : tensor) (idx : list Z) :
  (forall i, In i idx -> (1 <= i < Config.layers c)%Z) ->
  width e = in0 ->
  forall h, batch e = batch h -> width h = feat ->
  exists y, trunk_from self e idx h = Ok y /\ batch y = batch h /\ width y = feat.
Proof.
  intros Hidx He. induction idx as [|i idx IH]; intros h Hb Hh.
  - exists h. repeat split; assumption.
  - cbn [trunk_from]. rewrite trunk_step_inner; try assumption;
      [|apply Hidx; left; reflexivity].
    cbn [rbind].
    match goal with |- context [trunk_from self e idx ?t] => set (h' := t) end.
    destruct (IH (fun j Hj => Hidx j (or_intror Hj)) h') as (y & Hy & Hby & Hwy).
    + unfold h'. cbn. destruct (zin i (Config.skips c)); cbn; congruence.
    + unfold h'. reflexivity.
    + exists y. repeat split; try assumption.
      rewrite Hby. unfold h'. cbn. destruct (zin i (Config.skips c)); cbn; congruence.
Qed.

(** The whole trunk of a model with at least one layer whose skip indices
    avoid 0: it returns the shared features, of width [feat]. *)
Lemma trunk_from_ok (e : tensor) :
  (1 <= Config.layers c)%Z -> zin 0 (Config.skips c) = false ->
  width e = in0 ->
  exists y, trunk_from self e (range 0 (Config.layers c)) e = Ok y /\
            batch y = batch e /\ width y = feat.
Proof.
  intros HL H0 He. rewrite range_cons by lia. cbn [trunk_from].
  rewrite trunk_step_first by assumption. cbn [rbind].
  match goal with |- context [trunk_from self e _ ?t] => set (h' := t) end.
  destruct (trunk_from_inner e (range (0 + 1) (Config.layers c))) with (h := h')
    as (y & Hy & Hby & Hwy).
  - intros i Hi. apply range_In in Hi. lia.
  - exact He.
  - reflexivity.
  - reflexivity.
  - exists y. repeat split; assumption.
Qed.
End Trunk.

(** * The encoders and the heads of a constructed model *)

Lemma softplus_pos (v : R) : 0 < softplus v.
Proof.
  unfold softplus. destruct (Rlt_dec 20 v) as [H|H]; [lra|].
  rewrite <- ln_1. apply ln_increasing; [lra|].
  pose proof (exp_pos v). lra.
Qed.

(** ** Rounding to float32 *)

Lemma ln2_pos : 0 < ln 2.
Proof. pose proof ln_lt_2. lra. Qed.

Lemma Int_part_bounds (y : R) : IZR (Int_part y) <= y < IZR (Int_part y) + 1.
Proof. destruct (base_Int_part y). lra. Qed.

Lemma round_half_even_bounds (y : R) :
  (Int_part y <= round_half_even y <= Int_part y + 1)%Z.
Proof.
  unfold round_half_even.
  destruct (Rlt_dec _ _); [lia|]. destruct (Rlt_dec _ _); [lia|].
  destruct (Z.even _); lia.
Qed.

Lemma Rpower2_24 : Rpower 2 24 = 2 ^ 24.
Proof.
  rewrite <- (Rpower_pow 24 2) by lra. f_equal.
  rewrite INR_IZR_INZ. reflexivity.
Qed.

(** The exponent of a real in (0, 1). *)
Lemma exponent32_below_one (s : R) :
  0 < s < 1 ->
  (-126 <= exponent32 s <= -1)%Z /\ s < Rpower 2 (IZR (exponent32 s) + 1).
Proof.
  intros [Hs0 Hs1]. unfold exponent32. rewrite Rabs_right by lra.
  pose proof ln2_pos as Hl2.
  assert (Hln : ln s < 0) by (rewrite <- ln_1; apply ln_increasing; lra).
  set (t := ln s / ln 2).
  assert (Ht : t < 0).
  { unfold t. apply Rmult_lt_reg_r with (ln 2); [exact Hl2|].
    unfold Rdiv. rewrite Rmult_assoc, Rinv_l by lra. lra. }
  destruct (Int_part_bounds t) as [Hlo Hhi].
  assert (He0 : (Int_part t <= -1)%Z).
  { assert (IZR (Int_part t) < 0) by lra. apply lt_IZR in H. lia. }
  split; [lia|].
  assert (Hle : IZR (Int_part t) <= IZR (Z.max (-126) (Int_part t))) by (apply IZR_le; lia).
  assert (Hlt : ln s < (IZR (Z.max (-126) (Int_part t)) + 1) * ln 2).
  { replace (ln s) with (t * ln 2) by (unfold t; field; lra).
    apply Rmult_lt_compat_r; [exact Hl2|lra]. }
  unfold Rpower. rewrite <- (exp_ln s Hs0) at 1. apply exp_increasing. exact Hlt.
Qed.

(** Rounding a real of (0, 1) to float32 stays in [0, 1]. *)
Lemma round32_unit_interval (s : R) : 0 < s < 1 -> 0 <= round32 s <= 1.
Proof.
  intros Hs. destruct (exponent32_below_one s Hs) as [He Hlt].
  unfold round32. set (e := exponent32 s) in *.
  set (q := Rpower 2 (IZR (e - 23))).
  assert (Hq : 0 < q) by (unfold q, Rpower; apply exp_pos).
  assert (Hq24 : Rpower 2 (IZR e + 1) = 2 ^ 24 * q).
  { unfold q. rewrite <- Rpower2_24, <- Rpower_plus. f_equal.
    rewrite minus_IZR. lra. }
  assert (Hy : 0 < s / q < 2 ^ 24).
  { split; [apply Rdiv_lt_0_compat; lra|].
    apply Rmult_lt_reg_r with q; [exact Hq|].
    unfold Rdiv. rewrite Rmult_assoc, Rinv_l by lra. lra. }
  destruct (Int_part_bounds (s / q)) as [Hlo Hhi].
  pose proof (round_half_even_bounds (s / q)) as Hr.
  assert (Hn0 : (0 <= Int_part (s / q))%Z).
  { assert (-1 < IZR (Int_part (s / q))) by lra. apply lt_IZR in H. lia. }
  assert (Hn1 : (Int_part (s / q) + 1 <= 2 ^ 24)%Z).
  { assert (IZR (Int_part (s / q)) < IZR (2 ^ 24)).
    { replace (IZR (2 ^ 24)) with (2 ^ 24) by (simpl; lra). lra. }
    apply lt_IZR in H. lia. }
  assert (H0 : 0 <= IZR (round_half_even (s / q))) by (apply IZR_le; lia).
  assert (H1 : IZR (round_half_even (s / q)) <= 2 ^ 24).
  { replace (2 ^ 24) with (IZR (2 ^ 24)) by (simpl; lra). apply IZR_le. lia. }
  split; [apply Rmult_le_pos; lra|].
  apply Rle_trans with (2 ^ 24 * q); [apply Rmult_le_compat_r; lra|].
  rewrite <- Hq24.
  apply Rle_trans with (Rpower 2 0); [|rewrite Rpower_O by lra; lra].
  apply Rle_Rpower; [lra|].
  assert (IZR e <= -1) by (apply IZR_le; lia). lra.
Qed.

(** Within half a unit in the last place below 1, float32 rounding gives
    exactly 1. *)
Lemma round32_saturates (s : R) : 1 - / 2 ^ 25 <= s < 1 -> round32 s = 1.
Proof.
  intros [Hlo Hhi].
  assert (Hp25 : 0 < / 2 ^ 25) by (apply Rinv_0_lt_compat, pow_lt; lra).
  assert (Hp25' : / 2 ^ 25 <= / 2).
  { apply Rinv_le_contravar; [lra|]. simpl. lra. }
  assert (Hs : 0 < s < 1) by lra.
  pose proof ln2_pos as Hl2.
  assert (He : exponent32 s = (-1)%Z).
  { unfold exponent32. rewrite Rabs_right by lra.
    assert (Hln1 : ln s < 0) by (rewrite <- ln_1; apply ln_increasing; lra).
    assert (Hln2 : - ln 2 <= ln s).
    { rewrite <- ln_Rinv by lra.
      destruct (Req_dec (/ 2) s) as [<-|Hne]; [lra|].
      apply Rlt_le, ln_increasing; lra. }
    rewrite <- (Int_part_spec (ln s / ln 2) (-1)); [reflexivity|].
    split.
    - apply Rmult_lt_reg_r with (ln 2); [exact Hl2|].
      unfold Rdiv, Rminus. rewrite Rmult_plus_distr_r, Rmult_assoc, Rinv_l by lra. lra.
    - apply Rmult_le_reg_r with (ln 2); [exact Hl2|].
      unfold Rdiv. rewrite Rmult_assoc, Rinv_l by lra. lra. }
  unfold round32. rewrite He. change (-1 - 23)%Z with (-24)%Z.
  assert (Hq : Rpower 2 (IZR (-24)) = / 2 ^ 24).
  { change (-24)%Z with (Z.opp 24). rewrite opp_IZR, Rpower_Ropp, Rpower2_24.
    reflexivity. }
  rewrite Hq.
  assert (Hp24 : 0 < 2 ^ 24) by (apply pow_lt; lra).
  replace (s / / 2 ^ 24) with (s * 2 ^ 24) by (field; lra).
  set (y := s * 2 ^ 24).
  assert (Hy : 2 ^ 24 - 1 / 2 <= y < 2 ^ 24).
  { unfold y. split; [|nra].
    assert (/ 2 ^ 25 * 2 ^ 24 = 1 / 2) by (simpl; field).
    nra. }
  assert (Hn : Int_part y = (2 ^ 24 - 1)%Z).
  { symmetry. apply Int_part_spec.
    replace (IZR (2 ^ 24 - 1)) with (2 ^ 24 - 1) by (simpl; lra). lra. }
  assert (Hr : round_half_even y = (2 ^ 24)%Z).
  { unfold round_half_even. rewrite Hn.
    replace (IZR (2 ^ 24 - 1)) with (2 ^ 24 - 1) by (simpl; lra).
    destruct (Rlt_dec _ _) as [H|H]; [lra|].
    destruct (Rlt_dec _ _) as [H'|H']; [reflexivity|].
    reflexivity. }
  rewrite Hr. replace (IZR (2 ^ 24)) with (2 ^ 24) by (simpl; lra).
  field; lra.
Qed.

(** The sigmoid takes its values in the closed interval [0, 1]. *)
Lemma sigmoid_range (v : R) : 0 <= sigmoid v <= 1.
Proof.
  unfold sigmoid. apply round32_unit_interval.
  pose proof (exp_pos (- v)) as He. split.
  - apply Rinv_0_lt_compat. lra.
  - rewrite <- Rinv_1 at 2. apply Rinv_lt_contravar; lra.
Qed.

(** For an input of 2^25 or more the sigmoid is exactly 1. *)
Lemma sigmoid_saturates (v : R) : 2 ^ 25 <= v -> sigmoid v = 1.
Proof.
  intros Hv. unfold sigmoid. apply round32_saturates.
  assert (Hp : 0 < 2 ^ 25) by (apply pow_lt; lra).
  assert (Hexp : 1 + v < exp v) by (apply exp_ineq1; lra).
  pose proof (exp_pos (- v)) as He.
  assert (Hsmall : exp (- v) < / 2 ^ 25).
  { rewrite exp_Ropp. apply Rinv_lt_contravar; [|lra].
    apply Rmult_lt_0_compat; [lra|]. apply exp_pos. }
  split.
  - assert (H1 : (1 - / 2 ^ 25) * (1 + exp (- v)) <= 1) by nra.
    apply Rmult_le_reg_r with (1 + exp (- v)); [lra|].
    rewrite Rinv_l by lra. exact H1.
  - rewrite <- Rinv_1 at 2. apply Rinv_lt_contravar; lra.
Qed.

Lemma to_nat_2mul (f d : Z) :
  (0 <= f)%Z -> (0 <= d)%Z ->
  Z.to_nat (2 * f * d) = (Z.to_nat f * 2 * Z.to_nat d)%nat.
Proof.
  intros Hf Hd. rewrite !Z2Nat.inj_mul by lia.
  change (Z.to_nat 2) with 2%nat. lia.
Qed.

Lemma Mapping_module_forward (N ch : Z) (m : Mapping) (x : tensor) :
  Mapping_init N ch true = Ok m -> (1 <= N)%Z ->
  exists y, module_forward (MMapping m) x = Ok y /\ batch y = batch x /\
            width y = (Z.to_nat N * 2 * width x)%nat.
Proof.
  intros Hm HN.
  destruct (Mapping_init_ok N ch true) as (m' & Hm' & Hf & _ & _ & _ & Hlen); [lia|].
  assert (m' = m) by congruence. subst m'.
  destruct (Mapping_forward_spec m x) as (y & Hy & Hby & Hwy & _).
  - rewrite Hlen. lia.
  - rewrite Hf. simpl. lia.
  - exists y. rewrite Hlen, Hf in Hwy. repeat split; assumption.
Qed.

Lemma encoders_inv (c : Config.t) (enc : module * module) :
  encoders c = Ok enc ->
  if Config.mapping c then
    exists m0 m1,
      enc = (MMapping m0, MMapping m1) /\
      Mapping_init (fst (Config.mapping_sizes c)) (fst (Config.input_sizes c)) true = Ok m0 /\
      Mapping_init (snd (Config.mapping_sizes c)) (snd (Config.input_sizes c)) true = Ok m1
  else enc = (MSiren, MSiren).
Proof.
  unfold encoders.
  destruct (Config.input_sizes c) as [xyz dir], (Config.mapping_sizes c) as [fx fd].
  destruct (Config.mapping c); intros H.
  - cbn [fst snd].
    destruct (Mapping_init fx xyz true) as [m0|e]; [|discriminate].
    destruct (Mapping_init fd dir true) as [m1|e]; [|discriminate].
    cbn [rbind] in H. injection H as <-. exists m0, m1. repeat split.
  - injection H as <-. reflexivity.
Qed.

(** The encoder of a branch keeps the batch size and multiplies the width. *)
Lemma encoder_xyz (c : Config.t) (enc : module * module) (x : tensor) :
  encoders c = Ok enc ->
  (Config.mapping c = true -> (1 <= fst (Config.mapping_sizes c))%Z) ->
  exists y, module_forward (fst enc) x = Ok y /\ batch y = batch x /\
            width y = encoded_width c (fst (Config.mapping_sizes c)) (width x).
Proof.
  intros He HN. apply encoders_inv in He. unfold encoded_width.
  destruct (Config.mapping c).
  - destruct He as (m0 & m1 & -> & H0 & _). cbn [fst].
    apply (Mapping_module_forward _ _ _ _ H0). apply HN. reflexivity.
  - subst enc. exists (tmap siren_act x). repeat split.
Qed.

Lemma encoder_dir (c : Config.t) (enc : module * module) (x : tensor) :
  encoders c = Ok enc ->
  (Config.mapping c = true -> (1 <= snd (Config.mapping_sizes c))%Z) ->
  exists y, module_forward (snd enc) x = Ok y /\ batch y = batch x /\
            width y = encoded_width c (snd (Config.mapping_sizes c)) (width x).
Proof.
  intros He HN. apply encoders_inv in He. unfold encoded_width.
  destruct (Config.mapping c).
  - destruct He as (m0 & m1 & -> & _ & H1). cbn [snd].
    apply (Mapping_module_forward _ _ _ _ H1). apply HN. reflexivity.
  - subst enc. exists (tmap siren_act x). repeat split.
Qed.

Lemma buildable_inv (c : Config.t) :
  buildable c = true ->
  (0 <= fst (in_size c))%Z /\ (0 <= Config.feat c)%Z /\
  (0 <= Config.feat c + snd (in_size c))%Z /\
  (Config.mapping c = true ->
   (0 <= fst (Config.mapping_sizes c))%Z /\ (0 <= snd (Config.mapping_sizes c))%Z).
Proof.
  unfold buildable. rewrite !andb_true_iff, orb_true_iff, andb_true_iff, !Z.leb_le.
  intros [[[Hm Hi] Hf] Ho].
  split; [exact Hi|]. split; [exact Hf|]. split; [exact Ho|].
  intros Hmap. rewrite Hmap in Hm.
  destruct Hm as [Hm|[Ha Hb]]; [discriminate|split; assumption].
Qed.

Lemma zin_In (i : Z) (l : list Z) : zin i l = true <-> In i l.
Proof.
  unfold zin. rewrite existsb_exists. split.
  - intros (y & Hy & Heq). apply Z.eqb_eq in Heq. subst. exact Hy.
  - intros Hi. exists i. split; [exact Hi|apply Z.eqb_refl].
Qed.

Lemma ModelConfig_ok_inv (c : Config.t) :
  ModelConfig_ok c = true ->
  (1 <= Config.layers c)%Z /\
  (forall s, In s (Config.skips c) -> (1 <= s < Config.layers c)%Z) /\
  zin 0 (Config.skips c) = false /\
  (0 <= snd (Config.input_sizes c))%Z /\
  (Config.mapping c = true ->
   (1 <= fst (Config.mapping_sizes c))%Z /\
   (snd (Config.input_sizes c) = 0 \/ 1 <= snd (Config.mapping_sizes c))%Z).
Proof.
  unfold ModelConfig_ok.
  rewrite !andb_true_iff, orb_true_iff, andb_true_iff, orb_true_iff, forallb_forall.
  rewrite !Z.leb_le, Z.eqb_eq.
  intros [[[HL Hs] Hd] Hm].
  assert (Hsk : forall s, In s (Config.skips c) -> (1 <= s < Config.layers c)%Z).
  { intros s Hin. specialize (Hs s Hin). apply andb_true_iff in Hs.
    destruct Hs as [H1 H2]. apply Z.leb_le in H1. apply Z.ltb_lt in H2. lia. }
  repeat split; try assumption; try (apply Hsk; assumption).
  - destruct (zin 0 (Config.skips c)) eqn:H0; [|reflexivity].
    apply zin_In in H0. apply Hsk in H0. lia.
  - destruct Hm as [Hm|[Hm _]]; [rewrite H in Hm; discriminate|exact Hm].
  - destruct Hm as [Hm|[_ Hm]]; [rewrite H in Hm; discriminate|exact Hm].
Qed.

(** With a valid configuration the xyz size is non-negative and the encoded
    width of a well-shaped xyz input is the input width of layer 0. *)
Lemma xyz_width (c : Config.t) :
  buildable c = true ->
  (Config.mapping c = true -> (1 <= fst (Config.mapping_sizes c))%Z) ->
  (0 <= fst (Config.input_sizes c))%Z /\
  forall w, encoded_width c (fst (Config.mapping_sizes c)) w = Z.to_nat (fst (in_size c))
            <-> w = Z.to_nat (fst (Config.input_sizes c)).
Proof.
  intros Hb HN. apply buildable_inv in Hb. destruct Hb as (Hi & _ & _ & _).
  unfold encoded_width, in_size in *.
  destruct (Config.input_sizes c) as [xyz dir], (Config.mapping_sizes c) as [fx fd].
  cbn [fst snd] in *. destruct (Config.mapping c); cbn [fst] in *.
  - specialize (HN eq_refl). assert (Hx : (0 <= xyz)%Z) by nia.
    split; [exact Hx|]. intros w. rewrite to_nat_2mul by lia.
    split; [|intros ->; reflexivity].
    intros H. assert (0 < Z.to_nat fx)%nat by lia. nia.
  - split; [exact Hi|]. intros w. reflexivity.
Qed.

Section Constructed.
Variables (c : Config.t) (th : weights) (enc : module * module).
Hypothesis Hbuild : buildable c = true.
Hypothesis Henc : encoders c = Ok enc.

Let self := model_of c th enc.
Let feat := Z.to_nat (Config.feat c).
Let xyz := fst (Config.input_sizes c).
Let dir := snd (Config.input_sizes c).
Let fx := fst (Config.mapping_sizes c).
Let fd := snd (Config.mapping_sizes c).

(** The density head: a linear transform to one column, then softplus. *)
Lemma sigma_head (sh : tensor) :
  width sh = feat ->
  Sequential_forward (sigma_from_xyz self) sh =
  Ok (tmap softplus (Linear_apply (Linear_of (Config.feat c) 1 (sigma_w th)) sh)).
Proof.
  intros Hw. unfold self.
  cbn [model_of sigma_from_xyz Sequential_forward module_forward].
  rewrite Linear_forward_ok by exact Hw. reflexivity.
Qed.

(** The density stage on a well-shaped batch of positions. *)
Lemma density_ok (t : tensor) :
  (1 <= Config.layers c)%Z -> zin 0 (Config.skips c) = false ->
  (Config.mapping c = true -> (1 <= fx)%Z) ->
  width t = Z.to_nat xyz ->
  exists e sh,
    module_forward (fst enc) t = Ok e /\
    trunk_from self e (range 0 (Config.layers c)) e = Ok sh /\
    batch sh = batch t /\ width sh = feat /\
    density self t =
    Ok (sh, tmap softplus (Linear_apply (Linear_of (Config.feat c) 1 (sigma_w th)) sh)).
Proof.
  intros HL H0 HN Hw.
  destruct (buildable_inv c Hbuild) as (Hi & Hf & _ & _).
  destruct (xyz_width c Hbuild HN) as (_ & Hxw).
  destruct (encoder_xyz c enc t Henc HN) as (e & He & Hbe & Hwe).
  assert (Hwe' : width e = Z.to_nat (fst (in_size c))).
  { rewrite Hwe. apply Hxw. exact Hw. }
  destruct (trunk_from_ok c th enc Hf Hi e HL H0 Hwe') as (sh & Hsh & Hbs & Hws).
  exists e, sh. split; [exact He|]. split; [exact Hsh|].
  split; [congruence|]. split; [exact Hws|].
  pose proof (sigma_head sh Hws) as Hsg.
  unfold density. unfold self in *. cbn [model_of mapping layers].
  rewrite He. cbn [rbind]. rewrite Hsh. cbn [rbind].
  rewrite Hsg. reflexivity.
Qed.

(** Layer 0 rejects an input of the wrong width (the encoded xyz
    features, doubled when 0 is a skip index): the trunk raises at its
    first linear transform. *)
Lemma trunk_first_mismatch (e : tensor) :
  (1 <= Config.layers c)%Z ->
  width (if zin 0 (Config.skips c) then cat2 e e else e) <> Z.to_nat (fst (in_size c)) ->
  Linear_forward (trunk_linear c th 0)
                 (if zin 0 (Config.skips c) then cat2 e e else e) = Err ShapeMismatch /\
  trunk_from self e (range 0 (Config.layers c)) e = Err ShapeMismatch.
Proof.
  intros HL Hw.
  assert (Hlin : Linear_forward (trunk_linear c th 0)
                   (if zin 0 (Config.skips c) then cat2 e e else e) = Err ShapeMismatch).
  { apply Linear_forward_mismatch. unfold trunk_linear, trunk_in_width. cbn.
    exact Hw. }
  split; [exact Hlin|].
  rewrite range_cons by lia. cbn [trunk_from]. unfold self.
  rewrite trunk_step_model by lia.
  destruct (zin 0 (Config.skips c)).
  - rewrite cat_pair, Nat.eqb_refl. cbn [rbind]. rewrite Hlin. reflexivity.
  - cbn [rbind]. rewrite Hlin. reflexivity.
Qed.

(** The density stage on a batch of positions of the wrong width. *)
Lemma density_mismatch (t : tensor) :
  (1 <= Config.layers c)%Z -> zin 0 (Config.skips c) = false ->
  (Config.mapping c = true -> (1 <= fx)%Z) ->
  width t <> Z.to_nat xyz ->
  density self t = Err ShapeMismatch.
Proof.
  intros HL H0 HN Hw.
  destruct (xyz_width c Hbuild HN) as (_ & Hxw).
  destruct (encoder_xyz c enc t Henc HN) as (e & He & Hbe & Hwe).
  destruct (trunk_first_mismatch e HL) as [_ Htr].
  - rewrite H0, Hwe. intros H. apply Hxw in H. contradiction.
  - unfold density. unfold self in *. cbn [model_of mapping layers].
    rewrite He. cbn [rbind]. rewrite Htr. reflexivity.
Qed.

(** The width of the encoded direction. *)
Lemma dir_width :
  (0 <= dir)%Z ->
  encoded_width c fd (Z.to_nat dir) = Z.to_nat (snd (in_size c)) /\
  (0 <= snd (in_size c))%Z.
Proof.
  intros Hd. destruct (buildable_inv c Hbuild) as (_ & _ & _ & Hm).
  unfold encoded_width, in_size, dir, fd in *.
  destruct (Config.input_sizes c) as [x0 d0], (Config.mapping_sizes c) as [f0 f1].
  cbn [fst snd] in *. destruct (Config.mapping c); cbn [snd]; [|split; [reflexivity|exact Hd]].
  destruct (Hm eq_refl) as [_ Hf1]. rewrite to_nat_2mul by lia. split; [reflexivity|nia].
Qed.

(** The feature head and the colour head: three columns, each entry
    between 0 and 1. *)
Lemma color_ok (sh : tensor) (dt : option tensor) :
  width sh = feat -> (0 <= dir)%Z ->
  ((0 < dir)%Z ->
   (Config.mapping c = true -> (1 <= fd)%Z) /\
   exists d, dt = Some d /\ batch d = batch sh /\ width d = Z.to_nat dir) ->
  exists rgb, color self sh dt = Ok rgb /\ batch rgb = batch sh /\ width rgb = 3%nat /\
              forall b j, 0 <= at_ rgb b j <= 1.
Proof.
  intros Hw Hd Hdt.
  destruct (buildable_inv c Hbuild) as (_ & Hf & Ho & _).
  unfold color. unfold self.
  cbn [model_of feats_from_xyz rgb_from_xyzdir input_sizes mapping].
  cbn [Sequential_forward module_forward].
  rewrite Linear_forward_ok by exact Hw. cbn [rbind].
  rewrite activation_forward. cbn [rbind].
  set (ft := tmap (act_of (Config.siren c))
                  (Linear_apply (Linear_of (Config.feat c) (Config.feat c) (feats_w th)) sh)).
  assert (Hhead : forall inp, batch inp = batch sh ->
            width inp = Z.to_nat (Config.feat c + snd (in_size c)) ->
            exists rgb,
              (y <- Linear_forward
                      (Linear_of (Config.feat c + snd (in_size c)) (Config.feat c / 2)
                                 (rgb_hidden_w th)) inp ;;
               y0 <- module_forward (activation (Config.siren c)) y ;;
               y1 <- Linear_forward (Linear_of (Config.feat c / 2) 3 (rgb_out_w th)) y0 ;;
               y2 <- Ok (tmap sigmoid y1) ;; Ok y2)%res = Ok rgb /\
              batch rgb = batch sh /\ width rgb = 3%nat /\
              forall b j, 0 <= at_ rgb b j <= 1).
  { intros inp Hbi Hwi. rewrite Linear_forward_ok by exact Hwi. cbn [rbind].
    rewrite activation_forward. cbn [rbind].
    rewrite Linear_forward_ok by reflexivity. cbn [rbind].
    eexists. split; [reflexivity|]. split; [exact Hbi|]. split; [reflexivity|].
    intros b j. apply sigmoid_range. }
  fold dir. destruct (0 <? dir)%Z eqn:Hpos.
  - apply Z.ltb_lt in Hpos. destruct (Hdt Hpos) as (HN & d & -> & Hbd & Hwd).
    destruct (encoder_dir c enc d Henc HN) as (y & Hy & Hby & Hwy).
    rewrite Hy. cbn [rbind]. rewrite cat_pair.
    replace (batch ft) with (batch sh) by reflexivity.
    rewrite Hby, Hbd, Nat.eqb_refl. cbn [rbind].
    apply Hhead; [reflexivity|].
    cbn [cat2 width ft tmap Linear_apply Linear_of out_features].
    destruct (dir_width Hd) as [Hdw Hi1].
    rewrite Hwy. fold fd. rewrite Hwd, Hdw. lia.
  - apply Z.ltb_ge in Hpos. cbn [rbind]. apply Hhead; [reflexivity|].
    assert (Hz : dir = 0%Z) by lia.
    assert (Hi1 : snd (in_size c) = 0%Z).
    { unfold in_size. fold dir in Hz. unfold dir in Hz.
      destruct (Config.input_sizes c) as [x0 d0], (Config.mapping_sizes c) as [f0 f1].
      cbn [snd] in Hz. subst d0. destruct (Config.mapping c); cbn [snd]; lia. }
    rewrite Hi1, Z.add_0_r. reflexivity.
Qed.
End Constructed.

(** * The forward pass of a constructed model *)

Lemma NeRF_init_inv (c : Config.t) (th : weights) (self : NeRF) :
  NeRF_init c th = Ok self ->
  buildable c = true /\ exists enc, encoders c = Ok enc /\ self = model_of c th enc.
Proof.
  rewrite NeRF_init_eq. destruct (buildable c); [|discriminate].
  intros H. split; [reflexivity|].
  destruct (encoders c) as [enc|e]; [|discriminate].
  cbn [rbind] in H. injection H as <-. exists enc. split; reflexivity.
Qed.

Lemma split_ok (x : tensor) (a b : Z) :
  (0 <= a)%Z -> (0 <= b)%Z -> Z.of_nat (width x) = (a + b)%Z ->
  split x a b =
  Ok (Tensor (batch x) (Z.to_nat a) (at_ x),
      Tensor (batch x) (Z.to_nat b) (fun r j => at_ x r (Z.to_nat a + j))).
Proof.
  intros Ha Hb Hw. unfold split.
  assert (H1 : ((a <? 0) || (b <? 0))%Z = false).
  { apply orb_false_iff. split; apply Z.ltb_ge; assumption. }
  rewrite H1, Hw, Z.eqb_refl. reflexivity.
Qed.

Lemma split_mismatch (x : tensor) (a b : Z) :
  (0 <= a)%Z -> (0 <= b)%Z -> Z.of_nat (width x) <> (a + b)%Z ->
  split x a b = Err ShapeMismatch.
Proof.
  intros Ha Hb Hw. unfold split.
  assert (H1 : ((a <? 0) || (b <? 0))%Z = false).
  { apply orb_false_iff. split; apply Z.ltb_ge; assumption. }
  apply Z.eqb_neq in Hw. rewrite H1, Hw. reflexivity.
Qed.

(** The first statement of [forward] on a well-shaped input. *)
Lemma inputs_ok (c : Config.t) (th : weights) (enc : module * module)
      (x : tensor) (d : option tensor) (so : bool) :
  (0 <= fst (Config.input_sizes c))%Z ->
  Z.of_nat (width x) = expected_width c so ->
  exists xyz dt,
    inputs (model_of c th enc) x d so = Ok (xyz, dt) /\
    batch xyz = batch x /\
    width xyz = Z.to_nat (fst (Config.input_sizes c)) /\
    (so = false -> (0 < snd (Config.input_sizes c))%Z ->
     exists t, dt = Some t /\ batch t = batch x /\
               width t = Z.to_nat (snd (Config.input_sizes c))).
Proof.
  intros Hx Hw. unfold expected_width in Hw.
  unfold inputs. cbn [model_of input_sizes].
  destruct (Config.input_sizes c) as [xyz dir]. cbn [fst snd] in *.
  destruct (negb so && (0 <? dir)%Z) eqn:Hsp.
  - apply andb_true_iff in Hsp. destruct Hsp as [_ Hpos]. apply Z.ltb_lt in Hpos.
    rewrite split_ok by lia. cbn [rbind].
    eexists _, _. split; [reflexivity|]. cbn. repeat split.
    intros _ _. eexists. repeat split.
  - exists x, d. split; [reflexivity|]. split; [reflexivity|]. split; [lia|].
    intros -> Hpos. apply Z.ltb_lt in Hpos. rewrite Hpos in Hsp. discriminate.
Qed.

(** A constructed model with a valid configuration, on a well-shaped
    batch: every stage returns, with these shapes and these ranges. *)
Lemma forward_stages_ok (c : Config.t) (th : weights) (self : NeRF)
      (x : tensor) (d : option tensor) (so : bool) :
  NeRF_init c th = Ok self -> ModelConfig_ok c = true ->
  Z.of_nat (width x) = expected_width c so ->
  exists xyz dt sh sg,
    inputs self x d so = Ok (xyz, dt) /\
    density self xyz = Ok (sh, sg) /\
    shape sg = (batch x, 1%nat) /\ (forall b j, 0 < at_ sg b j) /\
    if so then forward_result self x d so = Ok sg
    else exists rgb,
        color self sh dt = Ok rgb /\
        shape rgb = (batch x, 3%nat) /\ (forall b j, 0 <= at_ rgb b j <= 1) /\
        forward_result self x d so = Ok (cat2 rgb sg).
Proof.
  intros Hinit Hok Hw.
  destruct (NeRF_init_inv c th self Hinit) as (Hb & enc & Henc & ->).
  destruct (ModelConfig_ok_inv c Hok) as (HL & _ & H0 & Hd & Hm).
  assert (HN : Config.mapping c = true -> (1 <= fst (Config.mapping_sizes c))%Z)
    by (intros H; apply Hm; exact H).
  destruct (xyz_width c Hb HN) as (Hx & _).
  destruct (inputs_ok c th enc x d so Hx Hw) as (xyz & dt & Hinp & Hbx & Hwx & Hdt).
  destruct (density_ok c th enc Hb Henc xyz HL H0 HN Hwx)
    as (e & sh & _ & _ & Hbs & Hws & Hden).
  exists xyz, dt, sh. eexists. split; [exact Hinp|]. split; [exact Hden|].
  split.
  { unfold shape. cbn [batch width tmap Linear_apply Linear_of out_features].
    change (Z.to_nat 1) with 1%nat. congruence. }
  split; [intros b j; apply softplus_pos|].
  unfold forward_result. rewrite Hinp. cbn [rbind]. rewrite Hden. cbn [rbind].
  destruct so; [reflexivity|].
  destruct (color_ok c th enc Hb Henc sh dt Hws Hd) as (rgb & Hrgb & Hbr & Hwr & Hrange).
  { intros Hpos. split.
    - intros Hmap. destruct (Hm Hmap) as [_ [Hz|Hfd]]; [lia|exact Hfd].
    - destruct (Hdt eq_refl Hpos) as (t & -> & Hbt & Hwt).
      exists t. repeat split; congruence. }
  exists rgb. split; [exact Hrgb|]. split; [unfold shape; congruence|].
  split; [exact Hrange|].
  rewrite Hrgb. cbn [rbind]. rewrite cat_pair.
  replace (batch rgb =? _)%nat with true; [reflexivity|].
  symmetry. apply Nat.eqb_eq. cbn. congruence.
Qed.

Lemma list3_eq (a b c a' b' c' : R) :
  a = a' -> b = b' -> c = c' -> [a; b; c] = [a'; b'; c'].
Proof. intros -> -> ->. reflexivity. Qed.

(** ** C3 *)

(** C3: for num_freqs >= 1 the log-scale bands are 2^0, ..., 2^(num_freqs-1)
    and the linear bands are num_freqs points evenly spaced from 1 to
    2^(num_freqs-1) (the single band 1 when num_freqs = 1); for num_freqs =
    3 they are [1, 2, 4] and [1, 2.5, 4]; and a forward pass of a model
    leaves the module object, its encoders and their bands included,
    exactly as constructed. *)
Theorem freq_bands_log_and_linear (N ch : Z) :
  (1 <= N)%Z ->
  (exists m, Mapping_init N ch true = Ok m /\
             freq_bands m = map (fun k => 2 ^ k) (seq 0 (Z.to_nat N))) /\
  (exists m, Mapping_init N ch false = Ok m /\
             length (freq_bands m) = Z.to_nat N /\
             (forall k, (k < Z.to_nat N)%nat ->
                nth k (freq_bands m) 0 =
                if (N =? 1)%Z then 1
                else 1 + INR k * ((2 ^ Z.to_nat (N - 1) - 1) / IZR (N - 1))) /\
             nth 0 (freq_bands m) 0 = 1 /\
             nth (Z.to_nat (N - 1)) (freq_bands m) 0 = 2 ^ Z.to_nat (N - 1)) /\
  (exists m, Mapping_init 3 ch true = Ok m /\ freq_bands m = [1; 2; 4]) /\
  (exists m, Mapping_init 3 ch false = Ok m /\ freq_bands m = [1; 5 / 2; 4]) /\
  (forall self x d so, snd (forward x d so self) = self).
Proof.
  intros HN.
  assert (Hlog : forall n, (1 <= n)%Z ->
            exists m, Mapping_init n ch true = Ok m /\
                      freq_bands m = map (fun k => 2 ^ k) (seq 0 (Z.to_nat n))).
  { intros n Hn. destruct (logscale_bands n) as (l & Hl & Hmap); [lia|].
    unfold Mapping_init. rewrite Hl. cbn [rbind]. eexists. split; [reflexivity|].
    exact Hmap. }
  assert (Hlin : forall n, (1 <= n)%Z ->
            exists m, Mapping_init n ch false = Ok m /\
              length (freq_bands m) = Z.to_nat n /\
              forall k, (k < Z.to_nat n)%nat ->
                nth k (freq_bands m) 0 =
                if (n =? 1)%Z then 1
                else 1 + INR k * ((2 ^ Z.to_nat (n - 1) - 1) / IZR (n - 1))).
  { intros n Hn. destruct (linear_bands n Hn) as (l & Hl & Hlen & Hnth).
    unfold Mapping_init. rewrite Hl. cbn [rbind]. eexists. split; [reflexivity|].
    split; assumption. }
  split; [apply Hlog; exact HN|]. split.
  { destruct (Hlin N HN) as (m & Hm & Hlen & Hnth). exists m.
    split; [exact Hm|]. split; [exact Hlen|]. split; [exact Hnth|]. split.
    - rewrite Hnth by lia. destruct (N =? 1)%Z; [reflexivity|]. simpl INR. lra.
    - rewrite Hnth by lia. destruct (N =? 1)%Z eqn:H1.
      + apply Z.eqb_eq in H1. subst N. reflexivity.
      + apply Z.eqb_neq in H1. rewrite INR_IZR_INZ, Z2Nat.id by lia.
        assert (Hd : 0 < IZR (N - 1)) by (apply IZR_lt; lia).
        field. lra. }
  split.
  { destruct (Hlog 3%Z) as (m & Hm & Hb); [lia|]. exists m. split; [exact Hm|].
    rewrite Hb. change (Z.to_nat 3) with 3%nat. cbn [seq map pow].
    apply list3_eq; lra. }
  split.
  { destruct (Hlin 3%Z) as (m & Hm & Hlen & Hnth); [lia|]. exists m. split; [exact Hm|].
    change (Z.to_nat 3) with 3%nat in *.
    destruct (freq_bands m) as [|b0 [|b1 [|b2 [|b3 l]]]]; try discriminate.
    pose proof (Hnth 0%nat ltac:(lia)) as H0.
    pose proof (Hnth 1%nat ltac:(lia)) as H1.
    pose proof (Hnth 2%nat ltac:(lia)) as H2.
    cbn [nth] in H0, H1, H2. change (3 =? 1)%Z with false in *.
    change (Z.to_nat (3 - 1)) with 2%nat in *. change (3 - 1)%Z with 2%Z in *.
    cbn [pow INR] in H0, H1, H2.
    apply list3_eq; lra. }
  intros self x d so. rewrite forward_run. reflexivity.
Qed.

Lemma freq_bands_log_and_linear_witness :
  (1 <= 3)%Z /\
  (exists m, Mapping_init 3 3 true = Ok m /\ freq_bands m = [1; 2; 4]) /\
  (exists m, Mapping_init 3 3 false = Ok m /\ freq_bands m = [1; 5 / 2; 4]).
Proof.
  split; [lia|].
  destruct (freq_bands_log_and_linear 3 3) as (_ & _ & Hlog & Hlin & _); [lia|].
  split; assumption.
Defined.

(** ** C6 *)

Lemma rsum_zero (n : nat) (f : nat -> R) : rsum n (fun k => f k * 0) = 0.
Proof.
  induction n as [|n IH]; [reflexivity|]. cbn [rsum]. rewrite IH. lra.
Qed.

(** The colour a constructed model returns is the sigmoid of its last
    linear layer. *)
Lemma color_form (c : Config.t) (th : weights) (enc : module * module)
      (sh : tensor) (dt : option tensor) (rgb : tensor) :
  color (model_of c th enc) sh dt = Ok rgb ->
  exists hid,
    rgb = tmap sigmoid
               (Linear_apply (Linear_of (Config.feat c / 2) 3 (rgb_out_w th)) hid).
Proof.
  unfold color. cbn [model_of feats_from_xyz rgb_from_xyzdir input_sizes mapping].
  destruct (Sequential_forward _ sh) as [ft|e]; [|discriminate]. cbn [rbind].
  match goal with
  | |- rbind ?r _ = _ -> _ => destruct r as [inp|e]; [|discriminate]
  end.
  cbn [rbind Sequential_forward module_forward].
  destruct (Linear_forward _ inp) as [y|e]; [|discriminate]. cbn [rbind].
  rewrite activation_forward. cbn [rbind].
  destruct (Linear_forward _ _) as [y1|e] eqn:Hl; [|discriminate]. cbn [rbind].
  intros H. injection H as <-. unfold Linear_forward in Hl.
  destruct (_ =? _)%nat; [|discriminate]. injection Hl as <-.
  eexists. reflexivity.
Qed.

(** C6 (counterexample): on the default model with the colour head driven
    into saturation, a well-shaped batch gives an output of shape (2, 4)
    whose first colour entry is exactly 1, so it is not inside the open
    interval (0, 1). *)
Lemma forward_rgb_reaches_one :
  exists self out,
    NeRF_init DefaultConfig saturating_weights = Ok self /\
    ModelConfig_ok DefaultConfig = true /\
    Z.of_nat (width (zeros 2 3)) = expected_width DefaultConfig false /\
    run (forward (zeros 2 3) None false) self = Ok out /\
    shape out = (2%nat, 4%nat) /\
    at_ out 0 0 = 1 /\
    ~ (0 < at_ out 0 0 < 1).
Proof.
  destruct (encoders_ok DefaultConfig eq_refl) as (enc & Henc).
  assert (Hinit : NeRF_init DefaultConfig saturating_weights
                  = Ok (model_of DefaultConfig saturating_weights enc)).
  { rewrite NeRF_init_eq. change (buildable DefaultConfig) with true.
    cbv iota. rewrite Henc. reflexivity. }
  destruct (forward_stages_ok _ _ _ (zeros 2 3) None false Hinit eq_refl eq_refl)
    as (xyz & dt & sh & sg & _ & _ & Hs & _ & rgb & Hrgb & Hsr & _ & Hres).
  destruct (color_form _ _ _ _ _ _ Hrgb) as (hid & Hform).
  injection Hs as Hbs Hws. injection Hsr as Hbr Hwr.
  assert (Hone : at_ (cat2 rgb sg) 0 0 = 1).
  { cbn [cat2 at_]. rewrite Hwr. change (0 <? 3)%nat with true. cbv iota.
    rewrite Hform. cbn [tmap at_ Linear_apply Linear_of in_features weight bias
                        saturating_weights rgb_out_w weight0 bias0].
    rewrite rsum_zero. apply sigmoid_saturates. lra. }
  exists (model_of DefaultConfig saturating_weights enc), (cat2 rgb sg).
  split; [exact Hinit|]. split; [reflexivity|]. split; [reflexivity|].
  split; [rewrite run_forward; exact Hres|].
  split; [unfold shape; cbn [cat2 batch width]; rewrite Hbr, Hwr, Hws; reflexivity|].
  split; [exact Hone|]. rewrite Hone. lra.
Qed.

(** C6 (amended): for a model constructed from a valid configuration and a
    well-shaped batch of size B, forward with sigma_only = True returns a
    tensor of shape (B, 1) with every entry >= 0, and forward with
    sigma_only = False returns a tensor of shape (B, 4) whose columns 0-2
    are the colour head's output (r, g, b), each in the closed interval
    [0, 1], and whose column 3 is the density, >= 0. *)
Theorem forward_shape_and_ranges (c : Config.t) (th : weights) (self : NeRF)
        (x : tensor) (d : option tensor) :
  NeRF_init c th = Ok self -> ModelConfig_ok c = true ->
  (Z.of_nat (width x) = expected_width c true ->
   exists sigma,
     run (forward x d true) self = Ok sigma /\
     shape sigma = (batch x, 1%nat) /\
     forall b, (b < batch x)%nat -> 0 <= at_ sigma b 0) /\
  (Z.of_nat (width x) = expected_width c false ->
   exists out xyz dt sh sg rgb,
     run (forward x d false) self = Ok out /\
     shape out = (batch x, 4%nat) /\
     inputs self x d false = Ok (xyz, dt) /\
     density self xyz = Ok (sh, sg) /\
     color self sh dt = Ok rgb /\
     forall b, (b < batch x)%nat ->
       (forall j, (j < 3)%nat -> at_ out b j = at_ rgb b j /\ 0 <= at_ out b j <= 1) /\
       at_ out b 3 = at_ sg b 0 /\ 0 <= at_ out b 3).
Proof.
  intros Hinit Hok. split; intros Hw.
  - destruct (forward_stages_ok c th self x d true Hinit Hok Hw)
      as (xyz & dt & sh & sg & _ & _ & Hs & Hpos & Hres).
    exists sg. rewrite run_forward. split; [exact Hres|]. split; [exact Hs|].
    intros b _. apply Rlt_le, Hpos.
  - destruct (forward_stages_ok c th self x d false Hinit Hok Hw)
      as (xyz & dt & sh & sg & Hin & Hden & Hs & Hpos & rgb & Hrgb & Hsr & Hrange & Hres).
    exists (cat2 rgb sg), xyz, dt, sh, sg, rgb. rewrite run_forward.
    injection Hs as Hbs Hws. injection Hsr as Hbr Hwr.
    split; [exact Hres|].
    split; [unfold shape; cbn [cat2 batch width]; rewrite Hbr, Hwr, Hws; reflexivity|].
    split; [exact Hin|]. split; [exact Hden|]. split; [exact Hrgb|].
    intros b _. cbn [cat2 at_]. rewrite Hwr. split.
    + intros j Hj. assert (Hlt : (j <? 3)%nat = true) by (apply Nat.ltb_lt; exact Hj).
      rewrite Hlt. split; [reflexivity|apply Hrange].
    + cbn. split; [reflexivity|apply Rlt_le, Hpos].
Qed.

Lemma forward_shape_and_ranges_witness :
  exists self,
    NeRF_init DefaultConfig zero_weights = Ok self /\
    ModelConfig_ok DefaultConfig = true /\
    shape_of (run (forward (zeros 2 3) None true) self) = Ok (2%nat, 1%nat) /\
    shape_of (run (forward (zeros 2 3) None false) self) = Ok (2%nat, 4%nat).
Proof.
  destruct (encoders_ok DefaultConfig eq_refl) as (enc & Henc).
  assert (Hinit : NeRF_init DefaultConfig zero_weights
                  = Ok (model_of DefaultConfig zero_weights enc)).
  { rewrite NeRF_init_eq. change (buildable DefaultConfig) with true.
    cbv iota. rewrite Henc. reflexivity. }
  exists (model_of DefaultConfig zero_weights enc).
  split; [exact Hinit|]. split; [reflexivity|].
  destruct (forward_shape_and_ranges DefaultConfig zero_weights _ (zeros 2 3) None
              Hinit eq_refl) as [H1 H2].
  destruct (H1 eq_refl) as (sg & Hr1 & Hs1 & _).
  destruct (H2 eq_refl) as (out & _ & _ & _ & _ & _ & Hr2 & Hs2 & _).
  rewrite Hr1, Hr2. cbn [shape_of]. rewrite Hs1, Hs2. split; reflexivity.
Defined.

(** ** C9 *)

(** C9: for a model constructed from a valid configuration, forward on an
    input whose width is not the one the configured input_sizes call for
    raises ShapeMismatch and leaves the module object, its parameters
    included, unmodified. *)
Theorem forward_width_mismatch (c : Config.t) (th : weights) (self : NeRF)
        (x : tensor) (d : option tensor) (so : bool) :
  NeRF_init c th = Ok self -> ModelConfig_ok c = true ->
  Z.of_nat (width x) <> expected_width c so ->
  forward x d so self = (Err ShapeMismatch, self).
Proof.
  intros Hinit Hok Hw. rewrite forward_run. f_equal.
  destruct (NeRF_init_inv c th self Hinit) as (Hb & enc & Henc & ->).
  destruct (ModelConfig_ok_inv c Hok) as (HL & _ & H0 & Hd & Hm).
  assert (HN : Config.mapping c = true -> (1 <= fst (Config.mapping_sizes c))%Z)
    by (intros H; apply Hm; exact H).
  destruct (xyz_width c Hb HN) as (Hx & _).
  pose proof (density_mismatch c th enc Hb Henc x HL H0 HN) as Hden.
  unfold forward_result, inputs, expected_width in *. cbn [model_of input_sizes] in *.
  destruct (Config.input_sizes c) as [xyz dir]. cbn [fst snd] in *.
  destruct (negb so && (0 <? dir)%Z).
  - rewrite split_mismatch by lia. reflexivity.
  - cbn [rbind]. rewrite Hden by lia. reflexivity.
Qed.

Lemma forward_width_mismatch_witness :
  exists self,
    NeRF_init (blender DefaultConfig) zero_weights = Ok self /\
    ModelConfig_ok (blender DefaultConfig) = true /\
    Z.of_nat (width (zeros 2 5)) <> expected_width (blender DefaultConfig) false /\
    forward (zeros 2 5) None false self = (Err ShapeMismatch, self).
Proof.
  destruct (encoders_ok (blender DefaultConfig) eq_refl) as (enc & Henc).
  assert (Hinit : NeRF_init (blender DefaultConfig) zero_weights
                  = Ok (model_of (blender DefaultConfig) zero_weights enc)).
  { rewrite NeRF_init_eq. change (buildable (blender DefaultConfig)) with true.
    cbv iota. rewrite Henc. reflexivity. }
  exists (model_of (blender DefaultConfig) zero_weights enc).
  split; [exact Hinit|]. split; [reflexivity|].
  assert (Hw : Z.of_nat (width (zeros 2 5)) <> expected_width (blender DefaultConfig) false)
    by (cbn; lia).
  split; [exact Hw|].
  exact (forward_width_mismatch _ _ _ (zeros 2 5) None false Hinit eq_refl Hw).
Defined.

(** ** C10 *)

(** An input wider than the xyz size is encoded to a width that layer 0
    rejects, doubled or not. *)
Lemma wide_input_mismatch (c : Config.t) (w : nat) :
  buildable c = true ->
  (Config.mapping c = true -> (1 <= fst (Config.mapping_sizes c))%Z) ->
  (Z.to_nat (fst (Config.input_sizes c)) < w)%nat ->
  encoded_width c (fst (Config.mapping_sizes c)) w <> Z.to_nat (fst (in_size c)) /\
  (2 * encoded_width c (fst (Config.mapping_sizes c)) w)%nat <> Z.to_nat (fst (in_size c)).
Proof.
  intros Hb HN Hw. apply buildable_inv in Hb. destruct Hb as (Hi & _ & _ & _).
  unfold encoded_width, in_size in *.
  destruct (Config.input_sizes c) as [xyz dir], (Config.mapping_sizes c) as [fx fd].
  cbn [fst snd] in *. destruct (Config.mapping c); cbn [fst] in *.
  - specialize (HN eq_refl). assert (Hx : (0 <= xyz)%Z) by nia.
    rewrite to_nat_2mul by lia. assert (0 < Z.to_nat fx)%nat by lia. split; nia.
  - split; lia.
Qed.

(** C10: on a constructed model with at least one layer and a direction
    size > 0, forward with sigma_only = True does not split: the whole of x
    goes through the xyz encoder, so a batch of width xyz_dim + dir_dim is
    rejected with a shape error by the first linear transform of the
    trunk, and the module object is left as it was; with a valid
    configuration a batch of width xyz_dim is accepted and gives the (B, 1)
    density. *)
Theorem sigma_only_takes_whole_input (c : Config.t) (th : weights) (self : NeRF)
        (x : tensor) (d : option tensor) :
  NeRF_init c th = Ok self ->
  (1 <= Config.layers c)%Z ->
  (Config.mapping c = true -> (1 <= fst (Config.mapping_sizes c))%Z) ->
  (0 < snd (Config.input_sizes c))%Z ->
  Z.of_nat (width x) = (fst (Config.input_sizes c) + snd (Config.input_sizes c))%Z ->
  inputs self x d true = Ok (x, d) /\
  (exists e,
      module_forward (fst (mapping self)) x = Ok e /\
      width e = encoded_width c (fst (Config.mapping_sizes c)) (width x) /\
      Sequential_get (fc_net self) 0 = Ok (MLinear (trunk_linear c th 0)) /\
      Linear_forward (trunk_linear c th 0)
                     (if zin 0 (skips self) then cat2 e e else e) = Err ShapeMismatch) /\
  forward x d true self = (Err ShapeMismatch, self) /\
  (ModelConfig_ok c = true ->
   forall x', Z.of_nat (width x') = fst (Config.input_sizes c) ->
     exists sigma, forward x' d true self = (Ok sigma, self) /\
                   shape sigma = (batch x', 1%nat)).
Proof.
  intros Hinit HL HN Hdir Hw.
  destruct (NeRF_init_inv c th self Hinit) as (Hb & enc & Henc & Hself).
  destruct (xyz_width c Hb HN) as (Hx & _).
  destruct (wide_input_mismatch c (width x) Hb HN) as [Hm1 Hm2]; [lia|].
  destruct (encoder_xyz c enc x Henc HN) as (e & He & Hbe & Hwe).
  assert (Hmis : width (if zin 0 (Config.skips c) then cat2 e e else e)
                 <> Z.to_nat (fst (in_size c))).
  { destruct (zin 0 (Config.skips c)); cbn [cat2 width]; rewrite Hwe; lia. }
  destruct (trunk_first_mismatch c th enc e HL Hmis) as [Hlin Htr].
  split; [reflexivity|]. split; [|split].
  - exists e. subst self. cbn [model_of mapping skips].
    split; [exact He|]. split; [exact Hwe|]. split; [|exact Hlin].
    apply (fc_net_get c th enc 0). lia.
  - rewrite forward_run. f_equal. subst self.
    unfold forward_result, inputs, density. cbn [negb andb rbind model_of mapping layers].
    rewrite He. cbn [rbind]. rewrite Htr. reflexivity.
  - intros Hok x' Hw'.
    destruct (forward_stages_ok c th self x' d true Hinit Hok)
      as (_ & _ & _ & sg & _ & _ & Hs & _ & Hres).
    + unfold expected_width. destruct (Config.input_sizes c). exact Hw'.
    + exists sg. rewrite forward_run, Hres. split; [reflexivity|exact Hs].
Qed.

Lemma sigma_only_takes_whole_input_witness :
  exists self,
    NeRF_init (blender DefaultConfig) zero_weights = Ok self /\
    forward (zeros 2 6) None true self = (Err ShapeMismatch, self) /\
    exists sigma, forward (zeros 2 3) None true self = (Ok sigma, self) /\
                  shape sigma = (2%nat, 1%nat).
Proof.
  destruct (encoders_ok (blender DefaultConfig) eq_refl) as (enc & Henc).
  assert (Hinit : NeRF_init (blender DefaultConfig) zero_weights
                  = Ok (model_of (blender DefaultConfig) zero_weights enc)).
  { rewrite NeRF_init_eq. change (buildable (blender DefaultConfig)) with true.
    cbv iota. rewrite Henc. reflexivity. }
  exists (model_of (blender DefaultConfig) zero_weights enc).
  split; [exact Hinit|].
  destruct (sigma_only_takes_whole_input (blender DefaultConfig) zero_weights _
              (zeros 2 6) None Hinit) as (_ & _ & Herr & Hok).
  - cbn. lia.
  - intros _. cbn. lia.
  - cbn. lia.
  - reflexivity.
  - split; [exact Herr|]. apply (Hok eq_refl (zeros 2 3)). reflexivity.
Defined.

(** ** C5 *)

Lemma trunk_from_app (self : NeRF) (e : tensor) (l1 l2 : list Z) (h : tensor) :
  trunk_from self e (l1 ++ l2) h =
  rbind (trunk_from self e l1 h) (trunk_from self e l2).
Proof.
  revert h. induction l1 as [|i l1 IH]; intros h; [reflexivity|].
  cbn [app trunk_from]. destruct (trunk_step self e i h) as [h'|err]; [|reflexivity].
  cbn [rbind]. apply IH.
Qed.

Lemma range_snoc (k : nat) :
  range 0 (Z.of_nat (S k)) = range 0 (Z.of_nat k) ++ [Z.of_nat k].
Proof.
  unfold range. rewrite !Z.sub_0_r, !Nat2Z.id, seq_S, map_app. reflexivity.
Qed.

Lemma trunk_activation_shape (c : Config.t) (th : weights) (e : tensor) (n : nat) :
  batch (trunk_activation c th e n) = batch e /\
  width (trunk_activation c th e n)
  = match n with O => width e | S _ => Z.to_nat (Config.feat c) end.
Proof.
  destruct n as [|n]; [split; reflexivity|].
  cbn [trunk_activation tmap Linear_apply batch width trunk_linear Linear_of out_features].
  split; [|reflexivity].
  destruct (zin (Z.of_nat n) (Config.skips c)); cbn [cat2 batch]; [reflexivity|].
  induction n as [|n IH]; [reflexivity|].
  cbn [trunk_activation tmap Linear_apply batch].
  destruct (zin (Z.of_nat n) (Config.skips c)); cbn [cat2 batch]; [reflexivity|exact IH].
Qed.

(** The loop of [forward] over the first [n] layers computes the running
    activation of the design. *)
Lemma trunk_from_activation (c : Config.t) (th : weights) (enc : module * module)
      (e : tensor) (n : nat) :
  (0 <= Config.feat c)%Z -> (0 <= fst (in_size c))%Z ->
  zin 0 (Config.skips c) = false ->
  width e = Z.to_nat (fst (in_size c)) ->
  (Z.of_nat n <= Config.layers c)%Z ->
  trunk_from (model_of c th enc) e (range 0 (Z.of_nat n)) e
  = Ok (trunk_activation c th e n).
Proof.
  intros Hf Hi H0 Hw. induction n as [|n IH]; intros Hn; [reflexivity|].
  rewrite range_snoc, trunk_from_app, IH by lia. cbn [rbind trunk_from].
  destruct (trunk_activation_shape c th e n) as [Hb Hwn].
  destruct n as [|n].
  - cbn [trunk_activation]. change (Z.of_nat 0) with 0%Z.
    rewrite (trunk_step_first c th enc e e H0 Hw), H0. reflexivity.
  - rewrite (trunk_step_inner c th enc Hf Hi e _ (Z.of_nat (S n)))
      by (lia || (symmetry; exact Hb) || assumption).
    reflexivity.
Qed.

(** The first statement of [forward] on a well-shaped input, with the
    position part named. *)
Lemma inputs_xyz_part (c : Config.t) (th : weights) (enc : module * module)
      (x : tensor) (d : option tensor) (so : bool) :
  (0 <= fst (Config.input_sizes c))%Z ->
  Z.of_nat (width x) = expected_width c so ->
  exists dt,
    inputs (model_of c th enc) x d so = Ok (xyz_part c so x, dt) /\
    batch (xyz_part c so x) = batch x /\
    width (xyz_part c so x) = Z.to_nat (fst (Config.input_sizes c)) /\
    (so = false -> (0 < snd (Config.input_sizes c))%Z ->
     exists t, dt = Some t /\ batch t = batch x /\
               width t = Z.to_nat (snd (Config.input_sizes c))).
Proof.
  intros Hx Hw. unfold expected_width in Hw. unfold inputs, xyz_part.
  cbn [model_of input_sizes].
  destruct (Config.input_sizes c) as [xyz dir]. cbn [fst snd] in *.
  destruct (negb so && (0 <? dir)%Z) eqn:Hsp.
  - apply andb_true_iff in Hsp. destruct Hsp as [_ Hpos]. apply Z.ltb_lt in Hpos.
    rewrite split_ok by lia. cbn [rbind].
    eexists. split; [reflexivity|]. cbn. repeat split.
    intros _ _. eexists. repeat split.
  - exists d. split; [reflexivity|]. split; [reflexivity|]. split; [lia|].
    intros -> Hpos. apply Z.ltb_lt in Hpos. rewrite Hpos in Hsp. discriminate.
Qed.

(** C5: in a model constructed with every skip index in [1, layers), trunk
    layer 0 maps the encoded xyz width to feat, and a layer i in [1, layers)
    maps feat to feat, or feat + encoded xyz width to feat when i is a skip
    index.  At forward time (valid configuration, well-shaped batch) the
    density forward returns is the density head applied to the running
    activation of the design: it starts as the encoded xyz features, and
    before the linear transform of each skip layer it is prefixed by those
    encoded features, not by the raw input. *)
Theorem trunk_widths_and_skip_injection (c : Config.t) (th : weights) (self : NeRF) :
  NeRF_init c th = Ok self ->
  (forall s, In s (Config.skips c) -> (1 <= s < Config.layers c)%Z) ->
  let in0 := Z.to_nat (fst (in_size c)) in
  let feat := Z.to_nat (Config.feat c) in
  (exists l, Sequential_get (fc_net self) 0 = Ok (MLinear l) /\
             in_features l = in0 /\ out_features l = feat) /\
  (forall i, (1 <= i < Config.layers c)%Z ->
     exists l, Sequential_get (fc_net self) (2 * i) = Ok (MLinear l) /\
               in_features l = (if zin i (Config.skips c) then feat + in0 else feat)%nat /\
               out_features l = feat /\
               Sequential_get (fc_net self) (2 * i + 1) = Ok (activation (Config.siren c))) /\
  (ModelConfig_ok c = true ->
   forall x d so,
     Z.of_nat (width x) = expected_width c so ->
     exists e,
       module_forward (fst (mapping self)) (xyz_part c so x) = Ok e /\
       let sigma :=
         tmap softplus
              (Linear_apply (Linear_of (Config.feat c) 1 (sigma_w th))
                            (trunk_activation c th e (Z.to_nat (Config.layers c)))) in
       if so then run (forward x d so) self = Ok sigma
       else exists out, run (forward x d so) self = Ok out /\
                        forall b, at_ out b 3 = at_ sigma b 0).
Proof.
  intros Hinit Hsk in0 feat.
  destruct (NeRF_init_inv c th self Hinit) as (Hb & enc & Henc & ->).
  destruct (buildable_inv c Hb) as (Hi & Hf & _ & _).
  split; [|split].
  - exists (trunk_linear c th 0). split; [apply (fc_net_get c th enc 0); lia|].
    split; reflexivity.
  - intros i Hir. destruct (fc_net_get c th enc i) as [Hg0 Hg1]; [lia|].
    exists (trunk_linear c th i). split; [exact Hg0|].
    assert (Hi0 : (i =? 0)%Z = false) by (apply Z.eqb_neq; lia).
    split.
    { unfold trunk_linear, trunk_in_width. rewrite Hi0. cbn.
      destruct (zin i (Config.skips c)); unfold feat, in0; lia. }
    split; [reflexivity|exact Hg1].
  - intros Hok x d so Hw.
    destruct (ModelConfig_ok_inv c Hok) as (HL & _ & H0 & Hd & Hm).
    assert (HN : Config.mapping c = true -> (1 <= fst (Config.mapping_sizes c))%Z)
      by (intros H; apply Hm; exact H).
    destruct (xyz_width c Hb HN) as (Hx & Hxw).
    destruct (inputs_xyz_part c th enc x d so Hx Hw) as (dt & Hinp & Hbx & Hwx & Hdt).
    destruct (density_ok c th enc Hb Henc (xyz_part c so x) HL H0 HN Hwx)
      as (e & sh & He & Htr & Hbs & Hws & Hden).
    destruct (encoder_xyz c enc (xyz_part c so x) Henc HN) as (e' & He' & _ & Hwe).
    assert (e' = e) by congruence. subst e'.
    assert (Hwe' : width e = Z.to_nat (fst (in_size c))).
    { rewrite Hwe. apply Hxw. exact Hwx. }
    pose proof (trunk_from_activation c th enc e (Z.to_nat (Config.layers c))
                                      Hf Hi H0 Hwe') as Hact.
    rewrite Z2Nat.id in Hact by lia. rewrite Hact in Htr by lia.
    injection Htr as <-.
    exists e. cbn [model_of mapping]. split; [exact He|]. cbv zeta.
    rewrite run_forward. unfold forward_result. rewrite Hinp. cbn [rbind].
    rewrite Hden. cbn [rbind]. destruct so; [reflexivity|].
    destruct (color_ok c th enc Hb Henc _ dt Hws Hd) as (rgb & Hrgb & Hbr & Hwr & _).
    { intros Hpos. split.
      - intros Hmap. destruct (Hm Hmap) as [_ [Hz|Hfd]]; [lia|exact Hfd].
      - destruct (Hdt eq_refl Hpos) as (t & -> & Hbt & Hwt).
        exists t. repeat split; congruence. }
    rewrite Hrgb. cbn [rbind]. rewrite cat_pair.
    replace (batch rgb =? _)%nat with true
      by (symmetry; apply Nat.eqb_eq; cbn; congruence).
    eexists. split; [reflexivity|].
    intros b. cbn [cat2 at_]. rewrite Hwr. reflexivity.
Qed.

Lemma trunk_widths_and_skip_injection_witness :
  exists self l e,
    NeRF_init DefaultConfig zero_weights = Ok self /\
    Sequential_get (fc_net self) (2 * 4) = Ok (MLinear l) /\
    in_features l = (256 + 60)%nat /\ out_features l = 256%nat /\
    module_forward (fst (mapping self)) (zeros 2 3) = Ok e /\
    run (forward (zeros 2 3) None true) self
    = Ok (tmap softplus
               (Linear_apply (Linear_of 256 1 zero_init)
                             (trunk_activation DefaultConfig zero_weights e 8))).
Proof.
  destruct (encoders_ok DefaultConfig eq_refl) as (enc & Henc).
  assert (Hinit : NeRF_init DefaultConfig zero_weights
                  = Ok (model_of DefaultConfig zero_weights enc)).
  { rewrite NeRF_init_eq. change (buildable DefaultConfig) with true.
    cbv iota. rewrite Henc. reflexivity. }
  destruct (trunk_widths_and_skip_injection DefaultConfig zero_weights _ Hinit)
    as (_ & Hl & Hfw).
  - intros s [<-|[]]. cbn. lia.
  - destruct (Hl 4%Z) as (l & Hg & Hin & Hout & _); [cbn; lia|].
    destruct (Hfw eq_refl (zeros 2 3) None true eq_refl) as (e & He & Hrun).
    exists (model_of DefaultConfig zero_weights enc), l, e.
    split; [exact Hinit|]. split; [exact Hg|]. split; [exact Hin|].
    split; [exact Hout|]. split; [exact He|exact Hrun].
Defined.

(** ** C4 *)

(** The skip list plays no part in what the constructor checks. *)
Lemma buildable_with_skips (c : Config.t) (sk : list Z) :
  buildable (with_skips c sk) = buildable c.
Proof. reflexivity. Qed.

Lemma zin_in_range_skips (c : Config.t) (i : Z) :
  (1 <= i < Config.layers c)%Z ->
  zin i (in_range_skips c) = zin i (Config.skips c).
Proof.
  intros Hi. unfold in_range_skips.
  destruct (zin i (Config.skips c)) eqn:Hz.
  - apply zin_In. apply filter_In. split; [apply zin_In; exact Hz|].
    apply andb_true_iff. split; [apply Z.leb_le|apply Z.ltb_lt]; lia.
  - destruct (zin i (filter _ (Config.skips c))) eqn:Hf; [|reflexivity].
    apply zin_In, filter_In in Hf. destruct Hf as [Hin _].
    apply zin_In in Hin. congruence.
Qed.

(** The trunk the constructor builds is the one it builds from the skip
    indices in [1, layers) alone: an index outside that range adds
    nothing. *)
Lemma fc_net_in_range_skips (c : Config.t) (th : weights) (enc : module * module) :
  fc_net (model_of (with_skips c (in_range_skips c)) th enc) = fc_net (model_of c th enc).
Proof.
  cbn [model_of fc_net with_skips Config.layers Config.siren].
  apply flat_map_ext_in. intros i Hi. apply range_In in Hi.
  f_equal. f_equal. unfold trunk_linear. f_equal.
  unfold trunk_in_width. cbn [with_skips Config.skips Config.feat].
  change (in_size (with_skips c (in_range_skips c))) with (in_size c).
  destruct (i =? 0)%Z eqn:H0; [reflexivity|].
  apply Z.eqb_neq in H0.
  destruct (Z.lt_ge_cases i (Config.layers c)) as [Hlt|Hge].
  - rewrite zin_in_range_skips by lia. reflexivity.
  - lia.
Qed.

(** C4 (counterexample): a configuration with a skip index 0, a skip index
    equal to layers and a half-width feat // 2 = 0 is constructed without
    any error. *)
Lemma NeRF_init_accepts_bad_skips :
  In 0%Z (Config.skips bad_skips_config) /\
  In (Config.layers bad_skips_config) (Config.skips bad_skips_config) /\
  (Config.feat bad_skips_config / 2 = 0)%Z /\
  exists self, NeRF_init bad_skips_config zero_weights = Ok self.
Proof.
  split; [left; reflexivity|]. split; [right; left; reflexivity|].
  split; [reflexivity|].
  destruct (encoders_ok bad_skips_config eq_refl) as (enc & Henc).
  exists (model_of bad_skips_config zero_weights enc).
  rewrite NeRF_init_eq. change (buildable bad_skips_config) with true.
  cbv iota. rewrite Henc. reflexivity.
Qed.

(** C4 (amended): the constructor validates sizes only.  It returns a model
    whenever the frequency counts (with positional encoding) and the layer
    sizes are non-negative, and raises the runtime's negative-size error
    otherwise; the skip list and the half-width are never checked.  A skip
    index outside [1, layers) adds nothing to the layers built, and a skip
    index 0 shows only in the forward pass, where a well-shaped batch is
    rejected with a shape error at layer 0 (when the encoded xyz width is
    positive). *)
Theorem NeRF_init_validates_sizes_only (c : Config.t) (th : weights) :
  (buildable c = true -> exists self, NeRF_init c th = Ok self) /\
  (buildable c = false -> NeRF_init c th = Err NegativeSize) /\
  (forall sk, buildable (with_skips c sk) = buildable c) /\
  (forall self, NeRF_init c th = Ok self ->
     exists self', NeRF_init (with_skips c (in_range_skips c)) th = Ok self' /\
                   fc_net self' = fc_net self) /\
  (forall self x d so,
     NeRF_init c th = Ok self ->
     In 0%Z (Config.skips c) -> (1 <= Config.layers c)%Z ->
     (0 < fst (in_size c))%Z ->
     (Config.mapping c = true -> (1 <= fst (Config.mapping_sizes c))%Z) ->
     Z.of_nat (width x) = expected_width c so ->
     forward x d so self = (Err ShapeMismatch, self)).
Proof.
  split; [|split; [|split; [|split]]].
  - intros Hb. destruct (encoders_ok c Hb) as (enc & Henc).
    exists (model_of c th enc). rewrite NeRF_init_eq, Hb, Henc. reflexivity.
  - intros Hb. rewrite NeRF_init_eq, Hb. reflexivity.
  - intros sk. apply buildable_with_skips.
  - intros self Hinit. destruct (NeRF_init_inv c th self Hinit) as (Hb & enc & Henc & ->).
    exists (model_of (with_skips c (in_range_skips c)) th enc). split.
    + rewrite NeRF_init_eq, buildable_with_skips, Hb.
      change (encoders (with_skips c (in_range_skips c))) with (encoders c).
      rewrite Henc. reflexivity.
    + apply fc_net_in_range_skips.
  - intros self x d so Hinit H0 HL Hpos HN Hw.
    destruct (NeRF_init_inv c th self Hinit) as (Hb & enc & Henc & ->).
    destruct (xyz_width c Hb HN) as (Hx & Hxw).
    destruct (inputs_ok c th enc x d so Hx Hw) as (xyz & dt & Hinp & _ & Hwx & _).
    destruct (encoder_xyz c enc xyz Henc HN) as (e & He & _ & Hwe).
    apply zin_In in H0.
    destruct (trunk_first_mismatch c th enc e HL) as [_ Htr].
    { rewrite H0. cbn [cat2 width]. rewrite Hwe.
      replace (encoded_width c (fst (Config.mapping_sizes c)) (width xyz))
        with (Z.to_nat (fst (in_size c))) by (symmetry; apply Hxw; exact Hwx).
      lia. }
    rewrite forward_run. f_equal. unfold forward_result. rewrite Hinp. cbn [rbind].
    unfold density. cbn [model_of mapping layers]. rewrite He. cbn [rbind].
    rewrite Htr. reflexivity.
Qed.

Lemma NeRF_init_validates_sizes_only_witness :
  exists self,
    buildable bad_skips_config = true /\
    NeRF_init bad_skips_config zero_weights = Ok self /\
    forward (zeros 2 3) None true self = (Err ShapeMismatch, self).
Proof.
  destruct (NeRF_init_validates_sizes_only bad_skips_config zero_weights)
    as (Hok & _ & _ & _ & Hfwd).
  destruct (Hok eq_refl) as (self & Hinit).
  exists self. split; [reflexivity|]. split; [exact Hinit|].
  apply (Hfwd self (zeros 2 3) None true Hinit).
  - left. reflexivity.
  - cbn. lia.
  - cbn. lia.
  - intros _. cbn. lia.
  - reflexivity.
Defined.

(** * Two runs of the same model *)

Lemma rrel_bind {A B : Type} (P : A -> A -> Prop) (Q : B -> B -> Prop)
      (r r' : result A) (k k' : A -> result B) :
  rrel P r r' -> (forall a b, P a b -> rrel Q (k a) (k' b)) ->
  rrel Q (rbind r k) (rbind r' k').
Proof.
  intros Hr Hk. destruct r as [a|e], r' as [b|e']; cbn in *;
    try contradiction; [apply Hk; exact Hr|exact Hr].
Qed.

Lemma rsum_ext (n : nat) (f g : nat -> R) :
  (forall k, (k < n)%nat -> f k = g k) -> rsum n f = rsum n g.
Proof.
  induction n as [|n IH]; intros H; [reflexivity|].
  cbn [rsum]. rewrite IH by (intros k Hk; apply H; lia).
  rewrite (H n) by lia. reflexivity.
Qed.

Section Congruence.
(** A relation between tensors that every tensor operation of the model
    preserves. *)
Variable P : tensor -> tensor -> Prop.
Hypothesis P_shape : forall t u, P t u -> same_shape t u.
Hypothesis P_tmap : forall f t u, P t u -> P (tmap f t) (tmap f u).
Hypothesis P_cat2 :
  forall t u t' u', batch t = batch u -> P t t' -> P u u' ->
                    P (cat2 t u) (cat2 t' u').
Hypothesis P_linear :
  forall l t u, width t = in_features l -> P t u ->
                P (Linear_apply l t) (Linear_apply l u).

Lemma cat_congr (ts ts' : list tensor) :
  Forall2 P ts ts' -> rrel P (cat ts) (cat ts').
Proof.
  induction 1 as [|t t' ts ts' Ht Hts IH]; [reflexivity|].
  destruct Hts as [|u u' us us' Hu Hus].
  - exact Ht.
  - change (rrel P (rbind (cat (u :: us))
                      (fun v => if (batch t =? batch v)%nat then Ok (cat2 t v)
                                else Err ShapeMismatch))
                   (rbind (cat (u' :: us'))
                      (fun v => if (batch t' =? batch v)%nat then Ok (cat2 t' v)
                                else Err ShapeMismatch))).
    apply (rrel_bind P P); [exact IH|].
    intros a b Hab. destruct (P_shape _ _ Ht) as [Hb _].
    destruct (P_shape _ _ Hab) as [Hb' _]. rewrite Hb, Hb'.
    destruct (batch t' =? batch b)%nat eqn:Heq; [|reflexivity].
    apply Nat.eqb_eq in Heq. apply P_cat2; [congruence|assumption|assumption].
Qed.

Lemma Mapping_out_congr (m : Mapping) (x x' : tensor) :
  P x x' -> Forall2 P (Mapping_out m x) (Mapping_out m x').
Proof.
  intros Hx. unfold Mapping_out.
  assert (Hin : forall (freq : R) (fs : list (R -> R)),
             Forall2 P (map (fun func => tmap (fun v => func (freq * v)) x) fs)
                       (map (fun func => tmap (fun v => func (freq * v)) x') fs)).
  { intros freq fs. induction fs as [|func fs IHf]; [constructor|].
    cbn [map]. constructor; [|exact IHf]. apply P_tmap. exact Hx. }
  induction (freq_bands m) as [|freq bands IH]; [constructor|].
  cbn [flat_map]. apply Forall2_app; [apply Hin|exact IH].
Qed.

Lemma Linear_forward_congr (l : Linear) (x x' : tensor) :
  P x x' -> rrel P (Linear_forward l x) (Linear_forward l x').
Proof.
  intros Hx. destruct (P_shape _ _ Hx) as [_ Hw]. unfold Linear_forward.
  rewrite <- Hw. destruct (width x =? in_features l)%nat eqn:Heq; [|reflexivity].
  apply Nat.eqb_eq in Heq. apply P_linear; assumption.
Qed.

Lemma module_forward_congr (m : module) (x x' : tensor) :
  P x x' -> rrel P (module_forward m x) (module_forward m x').
Proof.
  intros Hx. destruct m as [l| | | | |e]; cbn [module_forward].
  - apply Linear_forward_congr. exact Hx.
  - apply P_tmap. exact Hx.
  - apply P_tmap. exact Hx.
  - apply P_tmap. exact Hx.
  - apply P_tmap. exact Hx.
  - apply cat_congr, Mapping_out_congr. exact Hx.
Qed.

Lemma Sequential_forward_congr (s : list module) (x x' : tensor) :
  P x x' -> rrel P (Sequential_forward s x) (Sequential_forward s x').
Proof.
  revert x x'. induction s as [|m s IH]; intros x x' Hx; [exact Hx|].
  cbn [Sequential_forward]. apply (rrel_bind P P).
  - apply module_forward_congr. exact Hx.
  - intros a b Hab. apply IH. exact Hab.
Qed.

Lemma get_forward_congr (s : list module) (i : Z) (x x' : tensor) :
  P x x' ->
  rrel P (l <- Sequential_get s i ;; module_forward l x)%res
         (l <- Sequential_get s i ;; module_forward l x')%res.
Proof.
  intros Hx. destruct (Sequential_get s i) as [l|e]; [|reflexivity].
  cbn [rbind]. apply module_forward_congr. exact Hx.
Qed.

Lemma trunk_step_congr (self : NeRF) (e e' : tensor) (i : Z) (h h' : tensor) :
  P e e' -> P h h' -> rrel P (trunk_step self e i h) (trunk_step self e' i h').
Proof.
  intros He Hh. unfold trunk_step.
  apply (rrel_bind P P).
  { destruct (zin i (skips self)); [|exact Hh].
    apply cat_congr. repeat constructor; assumption. }
  intros a b Hab. apply (rrel_bind P P).
  { apply get_forward_congr. exact Hab. }
  intros a' b' Hab'. apply get_forward_congr. exact Hab'.
Qed.

Lemma trunk_from_congr (self : NeRF) (e e' : tensor) (idx : list Z) (h h' : tensor) :
  P e e' -> P h h' ->
  rrel P (trunk_from self e idx h) (trunk_from self e' idx h').
Proof.
  intros He. revert h h'. induction idx as [|i idx IH]; intros h h' Hh; [exact Hh|].
  cbn [trunk_from]. apply (rrel_bind P P).
  - apply trunk_step_congr; assumption.
  - intros a b Hab. apply IH. exact Hab.
Qed.

(** The shared features and the density are related when the positions
    are. *)
Lemma density_congr (self : NeRF) (t t' : tensor) :
  P t t' ->
  rrel (fun p p' => P (fst p) (fst p') /\ P (snd p) (snd p'))
       (density self t) (density self t').
Proof.
  intros Ht. unfold density. apply (rrel_bind P _).
  { apply module_forward_congr. exact Ht. }
  intros e e' He. apply (rrel_bind P _).
  { apply trunk_from_congr; exact He. }
  intros sh sh' Hsh. apply (rrel_bind P _).
  { apply Sequential_forward_congr. exact Hsh. }
  intros sg sg' Hsg. split; assumption.
Qed.

(** The colour is related when the shared features and the directions
    are. *)
Lemma color_congr (self : NeRF) (sh sh' : tensor) (dt dt' : option tensor) :
  P sh sh' ->
  match dt, dt' with
  | Some d, Some d' => P d d'
  | None, None => True
  | _, _ => False
  end ->
  rrel P (color self sh dt) (color self sh' dt').
Proof.
  intros Hsh Hdt. unfold color. apply (rrel_bind P P).
  { apply Sequential_forward_congr. exact Hsh. }
  intros ft ft' Hft. apply (rrel_bind P P).
  { destruct (0 <? snd (input_sizes self))%Z; [|exact Hft].
    apply (rrel_bind P P).
    - destruct dt as [d|], dt' as [d'|]; try contradiction; [|reflexivity].
      apply module_forward_congr. exact Hdt.
    - intros a b Hab. apply cat_congr. repeat constructor; assumption. }
  intros inp inp' Hinp. apply Sequential_forward_congr. exact Hinp.
Qed.
End Congruence.

Lemma same_shape_congruence :
  (forall t u, same_shape t u -> same_shape t u) /\
  (forall f t u, same_shape t u -> same_shape (tmap f t) (tmap f u)) /\
  (forall t u t' u', batch t = batch u -> same_shape t t' -> same_shape u u' ->
                     same_shape (cat2 t u) (cat2 t' u')) /\
  (forall l t u, width t = in_features l -> same_shape t u ->
                 same_shape (Linear_apply l t) (Linear_apply l u)).
Proof.
  unfold same_shape. repeat split; cbn; intuition congruence.
Qed.

Lemma teq_same_shape (t u : tensor) : teq t u -> same_shape t u.
Proof. intros (Hb & Hw & _). split; assumption. Qed.

Lemma teq_congruence :
  (forall t u, teq t u -> same_shape t u) /\
  (forall f t u, teq t u -> teq (tmap f t) (tmap f u)) /\
  (forall t u t' u', batch t = batch u -> teq t t' -> teq u u' ->
                     teq (cat2 t u) (cat2 t' u')) /\
  (forall l t u, width t = in_features l -> teq t u ->
                 teq (Linear_apply l t) (Linear_apply l u)).
Proof.
  split; [exact teq_same_shape|]. split; [|split].
  - intros f t u (Hb & Hw & He). repeat split; try assumption.
    intros b j Hbb Hj. cbn [tmap at_ batch width] in *.
    rewrite He by assumption. reflexivity.
  - intros t u t' u' Hbu (Hb & Hw & He) (Hb' & Hw' & He').
    repeat split; cbn [cat2 at_ batch width].
    + exact Hb.
    + congruence.
    + intros b j Hbb Hj. rewrite <- Hw.
      destruct (j <? width t)%nat eqn:Hlt.
      * apply Nat.ltb_lt in Hlt. apply He; assumption.
      * apply Nat.ltb_ge in Hlt. apply He'; lia.
  - intros l t u Hwl (Hb & Hw & He).
    repeat split; cbn [Linear_apply at_ batch width]; try assumption.
    intros b j Hbb Hj. f_equal. apply rsum_ext. intros k Hk.
    rewrite He by lia. reflexivity.
Qed.

(** The colour head of a constructed model ends in a linear transform to
    three columns. *)
Lemma color_width (c : Config.t) (th : weights) (enc : module * module)
      (sh : tensor) (dt : option tensor) (rgb : tensor) :
  color (model_of c th enc) sh dt = Ok rgb -> width rgb = 3%nat.
Proof.
  unfold color. cbn [model_of feats_from_xyz rgb_from_xyzdir input_sizes mapping].
  destruct (Sequential_forward _ sh) as [ft|e]; [|discriminate]. cbn [rbind].
  match goal with
  | |- rbind ?r _ = _ -> _ => destruct r as [inp|e]; [|discriminate]
  end.
  cbn [rbind Sequential_forward module_forward].
  destruct (Linear_forward _ inp) as [y|e]; [|discriminate]. cbn [rbind].
  rewrite activation_forward. cbn [rbind].
  destruct (Linear_forward _ _) as [y1|e] eqn:Hl; [|discriminate]. cbn [rbind].
  intros H. injection H as <-. unfold Linear_forward in Hl.
  destruct (_ =? _)%nat; [|discriminate]. injection Hl as <-. reflexivity.
Qed.

(** ** C7 *)

(** C7: on a constructed model with input_sizes = [3, 3], two batches of
    shape (B, 6) that agree on the three xyz columns give, without
    sigma_only, either the same exception or two outputs of the same shape
    with the same sigma column (column 3); with a valid configuration both
    calls return, with shape (B, 4). *)
Theorem density_ignores_direction (c : Config.t) (th : weights) (self : NeRF)
        (x x' : tensor) (d d' : option tensor) :
  NeRF_init c th = Ok self ->
  Config.input_sizes c = (3, 3)%Z ->
  shape x = (batch x, 6%nat) -> shape x' = (batch x, 6%nat) ->
  agree_on_first 3 x x' ->
  rrel (fun out out' =>
          shape out = shape out' /\
          forall b, (b < batch out)%nat -> (3 < width out)%nat ->
                    at_ out b 3 = at_ out' b 3)
       (run (forward x d false) self) (run (forward x' d' false) self) /\
  (ModelConfig_ok c = true ->
   exists out out',
     run (forward x d false) self = Ok out /\
     run (forward x' d' false) self = Ok out' /\
     shape out = (batch x, 4%nat) /\ shape out' = (batch x, 4%nat) /\
     forall b, (b < batch x)%nat -> at_ out b 3 = at_ out' b 3).
Proof.
  intros Hinit Hsz Hx Hx' Hagree.
  injection Hx as Hwx. injection Hx' as Hbx' Hwx'.
  assert (Hrel : rrel (fun out out' =>
            shape out = shape out' /\
            forall b, (b < batch out)%nat -> (3 < width out)%nat ->
                      at_ out b 3 = at_ out' b 3)
         (run (forward x d false) self) (run (forward x' d' false) self)).
  { destruct (NeRF_init_inv c th self Hinit) as (Hb & enc & Henc & ->).
    rewrite !run_forward. unfold forward_result, inputs.
    cbn [model_of input_sizes]. rewrite Hsz. cbn [fst snd negb andb].
    change (0 <? 3)%Z with true. cbv iota.
    rewrite !split_ok by lia. cbn [rbind]. change (Z.to_nat 3) with 3%nat.
    set (xyz := Tensor (batch x) 3 (at_ x)).
    set (xyz' := Tensor (batch x') 3 (at_ x')).
    set (dr := Tensor (batch x) 3 (fun r j => at_ x r (3 + j)%nat)).
    set (dr' := Tensor (batch x') 3 (fun r j => at_ x' r (3 + j)%nat)).
    assert (Hxyz : teq xyz xyz').
    { repeat split; cbn; [congruence|]. intros b j Hb' Hj. apply Hagree; assumption. }
    destruct teq_congruence as (T1 & T2 & T3 & T4).
    destruct same_shape_congruence as (S1 & S2 & S3 & S4).
    pose proof (density_congr teq T1 T2 T3 T4 (model_of c th enc) xyz xyz' Hxyz) as Hden.
    destruct (density (model_of c th enc) xyz) as [[sh sg]|e],
             (density (model_of c th enc) xyz') as [[sh' sg']|e'];
      cbn [rrel rbind fst snd] in *; try contradiction; [|exact Hden].
    destruct Hden as [Hsh Hsg].
    pose proof (color_congr same_shape S1 S2 S3 S4 (model_of c th enc) sh sh'
                            (Some dr) (Some dr') (teq_same_shape _ _ Hsh)) as Hcol.
    pose proof (color_width c th enc sh (Some dr)) as Hw3.
    destruct (color (model_of c th enc) sh (Some dr)) as [rgb|e],
             (color (model_of c th enc) sh' (Some dr')) as [rgb'|e'];
      cbn [rrel rbind] in *;
      try (exfalso; apply Hcol; split; cbn; congruence);
      [|apply Hcol; split; cbn; congruence].
    assert (Hrgb : same_shape rgb rgb') by (apply Hcol; split; cbn; congruence).
    specialize (Hw3 rgb eq_refl).
    destruct Hrgb as [Hbr Hwr]. destruct Hsg as (Hbs & Hws & Hes).
    rewrite !cat_pair. rewrite <- Hbr, <- Hbs.
    destruct (batch rgb =? batch sg)%nat eqn:Heq; [|reflexivity].
    apply Nat.eqb_eq in Heq. cbn [rrel]. split.
    - unfold shape. cbn [cat2 batch width]. congruence.
    - intros b Hb' Hw'. cbn [cat2 batch width at_] in *.
      rewrite <- Hwr, Hw3. change (3 <? 3)%nat with false. cbv iota.
      apply Hes; lia. }
  split; [exact Hrel|].
  intros Hok.
  assert (Hexp : expected_width c false = 6%Z).
  { unfold expected_width. rewrite Hsz. reflexivity. }
  destruct (forward_stages_ok c th self x d false Hinit Hok)
    as (_ & _ & _ & sg & _ & _ & _ & _ & rgb & _ & Hsr & _ & Hres);
    [rewrite Hexp, Hwx; reflexivity|].
  destruct (forward_stages_ok c th self x' d' false Hinit Hok)
    as (_ & _ & _ & sg' & _ & _ & Hss' & _ & rgb' & _ & Hsr' & _ & Hres');
    [rewrite Hexp, Hwx'; reflexivity|].
  rewrite !run_forward in *. rewrite Hres, Hres' in *.
  exists (cat2 rgb sg), (cat2 rgb' sg'). cbn [rrel] in Hrel.
  destruct Hrel as [Hshape Hcol].
  injection Hsr' as Hbr' Hwr'. injection Hss' as Hbs' Hws'.
  assert (Hs' : shape (cat2 rgb' sg') = (batch x, 4%nat)).
  { unfold shape. cbn [cat2 batch width]. rewrite Hbr', Hwr', Hws'. f_equal. exact Hbx'. }
  split; [reflexivity|]. split; [reflexivity|].
  split; [rewrite Hshape; exact Hs'|]. split; [exact Hs'|].
  intros b Hb'. rewrite Hs' in Hshape. injection Hshape as Hbo Hwo.
  apply Hcol; cbn [cat2 batch width]; lia.
Qed.

Lemma density_ignores_direction_witness :
  exists self out out',
    NeRF_init (blender DefaultConfig) zero_weights = Ok self /\
    run (forward (zeros 2 6) None false) self = Ok out /\
    run (forward (Tensor 2 6 (fun _ j => if (j <? 3)%nat then 0 else 1)) None false) self
    = Ok out' /\
    forall b, (b < 2)%nat -> at_ out b 3 = at_ out' b 3.
Proof.
  destruct (encoders_ok (blender DefaultConfig) eq_refl) as (enc & Henc).
  assert (Hinit : NeRF_init (blender DefaultConfig) zero_weights
                  = Ok (model_of (blender DefaultConfig) zero_weights enc)).
  { rewrite NeRF_init_eq. change (buildable (blender DefaultConfig)) with true.
    cbv iota. rewrite Henc. reflexivity. }
  destruct (density_ignores_direction (blender DefaultConfig) zero_weights _
              (zeros 2 6) (Tensor 2 6 (fun _ j => if (j <? 3)%nat then 0 else 1))
              None None Hinit) as [_ Hok].
  - reflexivity.
  - reflexivity.
  - reflexivity.
  - intros b j Hb Hj. cbn [zeros at_].
    assert (Hlt : (j <? 3)%nat = true) by (apply Nat.ltb_lt; exact Hj).
    rewrite Hlt. reflexivity.
  - destruct (Hok eq_refl) as (out & out' & H1 & H2 & _ & _ & Hcol).
    exists (model_of (blender DefaultConfig) zero_weights enc), out, out'.
    split; [exact Hinit|]. split; [exact H1|]. split; [exact H2|exact Hcol].
Defined.

(** * Further properties of the encoders *)

(** [Siren.forward] never raises, keeps the shape of its input, every entry
    of its output lies in [-1, 1], and it is odd: negating the input
    negates the output. *)
Theorem Siren_forward_bounded_odd (x : tensor) :
  exists y, module_forward MSiren x = Ok y /\ shape y = shape x /\
    (forall b j, -1 <= at_ y b j <= 1) /\
    exists z, module_forward MSiren (tmap Ropp x) = Ok z /\
              forall b j, at_ z b j = - at_ y b j.
Proof.
  exists (tmap siren_act x). split; [reflexivity|]. split; [reflexivity|]. split.
  - intros b j. cbn [tmap at_]. unfold siren_act. apply SIN_bound.
  - exists (tmap siren_act (tmap Ropp x)). split; [reflexivity|].
    intros b j. cbn [tmap at_]. unfold siren_act.
    rewrite <- sin_neg. f_equal. lra.
Qed.

(** [Mapping.forward] never looks at [in_channels]: an encoder with at
    least one frequency accepts a batch of any width w, whatever
    [in_channels] it was built with, and returns width 2 * num_freqs * w,
    every entry in [-1, 1]. *)
Theorem Mapping_forward_any_width (N ch : Z) (ls : bool) (m : Mapping) (x : tensor) :
  (1 <= N)%Z -> Mapping_init N ch ls = Ok m ->
  exists y, Mapping_forward m x = Ok y /\
    shape y = (batch x, (2 * Z.to_nat N * width x)%nat) /\
    (forall b j, (j < width y)%nat -> -1 <= at_ y b j <= 1).
Proof.
  intros HN Hm.
  destruct (Mapping_init_ok N ch ls) as (m' & Hm' & Hf & _ & _ & _ & Hlen); [lia|].
  assert (m' = m) by congruence. subst m'.
  destruct (Mapping_forward_spec m x) as (y & Hy & Hby & Hwy & Hat).
  - rewrite Hlen. lia.
  - rewrite Hf. simpl. lia.
  - rewrite Hf, Hlen in *. cbn [length] in *.
    exists y. split; [exact Hy|]. split; [unfold shape; rewrite Hby, Hwy; f_equal; lia|].
    intros b j Hj. rewrite Hwy in Hj.
      assert (Hw : (0 < width x)%nat) by nia.
      pose proof (Nat.div_mod_eq j (width x)) as Hdm.
      pose proof (Nat.mod_upper_bound j (width x) ltac:(lia)) as Hmod.
      pose proof (Nat.div_mod_eq (j / width x) 2) as Hdm2.
      pose proof (Nat.mod_upper_bound (j / width x) 2 ltac:(lia)) as Hmod2.
      set (blk := (j / width x)%nat) in *. set (col := (j mod width x)%nat) in *.
      set (k := (blk / 2)%nat) in *. set (f := (blk mod 2)%nat) in *.
      assert (Hblk : (blk < Z.to_nat N * 2)%nat).
      { apply Nat.Div0.div_lt_upper_bound. nia. }
      assert (Hk : (k < Z.to_nat N)%nat) by lia.
      replace j with ((k * 2 + f) * width x + col)%nat by nia.
      rewrite (Hat k f b col Hk Hmod2 Hmod).
      destruct f as [|[|f]]; cbn [nth]; [apply SIN_bound|apply COS_bound|lia].
Qed.

Lemma Mapping_forward_any_width_witness :
  (1 <= 10)%Z /\
  exists m y,
    Mapping_init 10 3 true = Ok m /\
    Mapping_forward m (zeros 2 7) = Ok y /\
    shape y = (2%nat, 140%nat).
Proof.
  split; [lia|].
  destruct (Mapping_init_ok 10 3 true) as (m & Hm & _); [lia|].
  destruct (Mapping_forward_any_width 10 3 true m (zeros 2 7)) as (y & Hy & Hs & _);
    [lia|exact Hm|].
  exists m, y. repeat split; assumption.
Defined.

(** The degenerate encoders: a negative number of frequencies raises in
    the constructor; zero frequencies are accepted by the constructor (no
    band, and [out_channels] equal to [in_channels]), but then forward
    raises on every input, [torch.cat] being given an empty list. *)
Theorem Mapping_without_frequencies (N ch : Z) (ls : bool) :
  ((N < 0)%Z -> Mapping_init N ch ls = Err NegativeSize) /\
  (N = 0%Z ->
   exists m, Mapping_init N ch ls = Ok m /\ freq_bands m = [] /\
             out_channels m = ch /\
             forall x, Mapping_forward m x = Err EmptyList).
Proof.
  split; [apply Mapping_init_neg|].
  intros ->. destruct ls; (eexists; split; [reflexivity|]); cbn;
    (split; [reflexivity|]); (split; [lia|]); intros x; reflexivity.
Qed.

Lemma Mapping_without_frequencies_witness :
  ((-1 < 0)%Z /\ Mapping_init (-1) 3 true = Err NegativeSize) /\
  exists m, Mapping_init 0 3 true = Ok m /\
            Mapping_forward m (zeros 2 3) = Err EmptyList.
Proof.
  destruct (Mapping_without_frequencies (-1) 3 true) as [Hneg _].
  destruct (Mapping_without_frequencies 0 3 true) as [_ Hz].
  split; [split; [lia|apply Hneg; lia]|].
  destruct (Hz eq_refl) as (m & Hm & _ & _ & Hf).
  exists m. split; [exact Hm|apply Hf].
Defined.

(** * Further properties of the forward pass *)

(** The colour stage reads the direction only when the direction size is
    positive. *)
Lemma color_without_direction (self : NeRF) (sh : tensor) (dt dt' : option tensor) :
  (0 <? snd (input_sizes self))%Z = false ->
  color self sh dt = color self sh dt'.
Proof. intros H. unfold color. rewrite H. reflexivity. Qed.

Lemma forward_result_input_dir (self : NeRF) (x : tensor)
      (d d' : option tensor) (so : bool) :
  forward_result self x d so = forward_result self x d' so.
Proof.
  unfold forward_result, inputs.
  destruct (negb so && (0 <? snd (input_sizes self))%Z) eqn:Hsp; [reflexivity|].
  cbn [rbind]. destruct (density self x) as [[sh sg]|e]; [|reflexivity].
  cbn [rbind]. destruct so; [reflexivity|].
  cbn [negb andb] in Hsp. rewrite (color_without_direction self sh d d' Hsp).
  reflexivity.
Qed.

(** The argument [input_dir] of [forward] is never used: whatever module
    object, batch and flag, two calls that differ only in [input_dir]
    return the same value or raise the same exception.  (When the direction
    is needed it is taken from the split of [x], which overwrites the
    argument.) *)
Theorem forward_ignores_input_dir (self : NeRF) (x : tensor)
        (d d' : option tensor) (so : bool) :
  forward x d so self = forward x d' so self.
Proof.
  rewrite !forward_run. f_equal. apply forward_result_input_dir.
Qed.

(** The two modes of [forward] agree on the density: on a constructed model
    with a direction size > 0, when the full call on [x] returns, the
    sigma_only call on the xyz columns of [x] returns too, and its single
    column is column 3 of the full output. *)
Theorem sigma_only_is_sigma_column (c : Config.t) (th : weights) (self : NeRF)
        (x out : tensor) (d d' : option tensor) :
  NeRF_init c th = Ok self ->
  (0 < snd (Config.input_sizes c))%Z ->
  run (forward x d false) self = Ok out ->
  exists sigma,
    run (forward (first_columns (Z.to_nat (fst (Config.input_sizes c))) x) d' true) self
    = Ok sigma /\
    batch sigma = batch out /\ width out = (3 + width sigma)%nat /\
    forall b j, at_ out b (3 + j) = at_ sigma b j.
Proof.
  intros Hinit Hdir. destruct (NeRF_init_inv c th self Hinit) as (_ & enc & _ & ->).
  rewrite !run_forward. unfold forward_result, inputs.
  cbn [model_of input_sizes negb andb].
  assert (Hpos : (0 <? snd (Config.input_sizes c))%Z = true) by (apply Z.ltb_lt; exact Hdir).
  rewrite Hpos. unfold split.
  destruct ((fst (Config.input_sizes c) <? 0) || (snd (Config.input_sizes c) <? 0))%Z;
    [discriminate|].
  destruct (Z.of_nat (width x) =? _)%Z; [|discriminate].
  cbn [rbind]. fold (first_columns (Z.to_nat (fst (Config.input_sizes c))) x).
  set (xyz := first_columns (Z.to_nat (fst (Config.input_sizes c))) x).
  destruct (density (model_of c th enc) xyz) as [[sh sg]|e]; [|discriminate].
  cbn [rbind].
  match goal with
  | |- rbind (color ?m sh ?dt) _ = _ -> _ =>
      pose proof (color_width c th enc sh dt) as Hw3;
      destruct (color m sh dt) as [rgb|e]; [|discriminate]
  end.
  specialize (Hw3 rgb eq_refl). cbn [rbind]. rewrite cat_pair.
  destruct (batch rgb =? batch sg)%nat eqn:Hb; [|discriminate].
  apply Nat.eqb_eq in Hb. intros H. injection H as <-.
  exists sg. split; [reflexivity|]. cbn [cat2 batch width at_]. rewrite Hw3.
  split; [symmetry; exact Hb|]. split; [reflexivity|].
  intros b j. replace (3 + j <? 3)%nat with false by (symmetry; apply Nat.ltb_ge; lia).
  f_equal. lia.
Qed.

Lemma sigma_only_is_sigma_column_witness :
  exists self out sigma,
    NeRF_init (blender DefaultConfig) zero_weights = Ok self /\
    run (forward (zeros 2 6) None false) self = Ok out /\
    run (forward (first_columns 3 (zeros 2 6)) None true) self = Ok sigma /\
    forall b j, at_ out b (3 + j) = at_ sigma b j.
Proof.
  destruct (encoders_ok (blender DefaultConfig) eq_refl) as (enc & Henc).
  assert (Hinit : NeRF_init (blender DefaultConfig) zero_weights
                  = Ok (model_of (blender DefaultConfig) zero_weights enc)).
  { rewrite NeRF_init_eq. change (buildable (blender DefaultConfig)) with true.
    cbv iota. rewrite Henc. reflexivity. }
  destruct (forward_stages_ok _ _ _ (zeros 2 6) None false Hinit eq_refl eq_refl)
    as (_ & _ & _ & sg & _ & _ & _ & _ & rgb & _ & _ & _ & Hres).
  rewrite <- run_forward in Hres.
  destruct (sigma_only_is_sigma_column (blender DefaultConfig) zero_weights _
              (zeros 2 6) (cat2 rgb sg) None None Hinit)
    as (sigma & Hs & _ & _ & Hcol).
  - cbn. lia.
  - exact Hres.
  - exists (model_of (blender DefaultConfig) zero_weights enc), (cat2 rgb sg), sigma.
    split; [exact Hinit|]. split; [exact Hres|]. split; [exact Hs|exact Hcol].
Defined.

(** Whether [forward] raises, which exception it raises and the shape of
    what it returns depend on the shape of the batch only, not on its
    entries: on any module object, two batches of the same shape give the
    same exception or two outputs of the same shape. *)
Theorem forward_outcome_depends_on_shape_only (self : NeRF) (x x' : tensor)
        (d : option tensor) (so : bool) :
  same_shape x x' ->
  rrel same_shape (run (forward x d so) self) (run (forward x' d so) self).
Proof.
  intros [Hb Hw]. rewrite !run_forward.
  destruct same_shape_congruence as (S1 & S2 & S3 & S4).
  unfold forward_result.
  apply (rrel_bind (fun p p' : tensor * option tensor =>
                      same_shape (fst p) (fst p') /\
                      match snd p, snd p' with
                      | Some t, Some t' => same_shape t t'
                      | None, None => True
                      | _, _ => False
                      end) same_shape).
  { unfold inputs. destruct (negb so && (0 <? snd (input_sizes self))%Z).
    - unfold split. rewrite <- Hw.
      destruct ((fst (input_sizes self) <? 0) || (snd (input_sizes self) <? 0))%Z;
        [reflexivity|].
      destruct (Z.of_nat (width x) =? _)%Z; [|reflexivity].
      cbn. repeat split; assumption.
    - cbn. split; [split; assumption|]. destruct d; [|exact I].
      split; reflexivity. }
  intros [xyz dt] [xyz' dt'] [Hxyz Hdt]. cbn [fst snd] in *.
  apply (rrel_bind (fun p p' : tensor * tensor =>
                      same_shape (fst p) (fst p') /\ same_shape (snd p) (snd p'))
                   same_shape).
  { apply (density_congr same_shape S1 S2 S3 S4). exact Hxyz. }
  intros [sh sg] [sh' sg'] [Hsh Hsg]. cbn [fst snd] in *.
  destruct so; [exact Hsg|].
  apply (rrel_bind same_shape same_shape).
  { apply (color_congr same_shape S1 S2 S3 S4); assumption. }
  intros rgb rgb' Hrgb. apply (cat_congr same_shape S1 S3).
  constructor; [exact Hrgb|]. constructor; [exact Hsg|constructor].
Qed.

Lemma forward_outcome_depends_on_shape_only_witness :
  same_shape (zeros 2 6) (Tensor 2 6 (fun _ _ => 1)) /\
  forall self,
    rrel same_shape (run (forward (zeros 2 6) None false) self)
                    (run (forward (Tensor 2 6 (fun _ _ => 1)) None false) self).
Proof.
  assert (H : same_shape (zeros 2 6) (Tensor 2 6 (fun _ _ => 1))) by (split; reflexivity).
  split; [exact H|]. intros self.
  exact (forward_outcome_depends_on_shape_only self _ _ None false H).
Defined.

(** * Batches of different sizes *)

Section Simulation.
(** A relation between the tensors of two runs on batches of possibly
    different sizes: related tensors have the same width, and batch checks
    come out the same in both runs. *)
Variable P : tensor -> tensor -> Prop.
Hypothesis P_width : forall t u, P t u -> width t = width u.
Hypothesis P_batch :
  forall t t' u u', P t t' -> P u u' ->
                    (batch t =? batch u)%nat = (batch t' =? batch u')%nat.
Hypothesis P_tmap : forall f t u, P t u -> P (tmap f t) (tmap f u).
Hypothesis P_cat2 :
  forall t u t' u', batch t = batch u -> P t t' -> P u u' ->
                    P (cat2 t u) (cat2 t' u').
Hypothesis P_linear :
  forall l t u, width t = in_features l -> P t u ->
                P (Linear_apply l t) (Linear_apply l u).

Lemma cat_sim (ts ts' : list tensor) :
  Forall2 P ts ts' -> rrel P (cat ts) (cat ts').
Proof.
  induction 1 as [|t t' ts ts' Ht Hts IH]; [reflexivity|].
  destruct Hts as [|u u' us us' Hu Hus].
  - exact Ht.
  - change (rrel P (rbind (cat (u :: us))
                      (fun v => if (batch t =? batch v)%nat then Ok (cat2 t v)
                                else Err ShapeMismatch))
                   (rbind (cat (u' :: us'))
                      (fun v => if (batch t' =? batch v)%nat then Ok (cat2 t' v)
                                else Err ShapeMismatch))).
    apply (rrel_bind P P); [exact IH|].
    intros a b Hab. rewrite <- (P_batch t t' a b Ht Hab).
    destruct (batch t =? batch a)%nat eqn:Heq; [|reflexivity].
    apply Nat.eqb_eq in Heq. apply P_cat2; assumption.
Qed.

Lemma Mapping_out_sim (m : Mapping) (x x' : tensor) :
  P x x' -> Forall2 P (Mapping_out m x) (Mapping_out m x').
Proof.
  intros Hx. unfold Mapping_out.
  assert (Hin : forall (freq : R) (fs : list (R -> R)),
             Forall2 P (map (fun func => tmap (fun v => func (freq * v)) x) fs)
                       (map (fun func => tmap (fun v => func (freq * v)) x') fs)).
  { intros freq fs. induction fs as [|func fs IHf]; [constructor|].
    cbn [map]. constructor; [|exact IHf]. apply P_tmap. exact Hx. }
  induction (freq_bands m) as [|freq bands IH]; [constructor|].
  cbn [flat_map]. apply Forall2_app; [apply Hin|exact IH].
Qed.

Lemma module_forward_sim (m : module) (x x' : tensor) :
  P x x' -> rrel P (module_forward m x) (module_forward m x').
Proof.
  intros Hx. destruct m as [l| | | | |e]; cbn [module_forward];
    try (apply P_tmap; exact Hx).
  - unfold Linear_forward. rewrite <- (P_width _ _ Hx).
    destruct (width x =? in_features l)%nat eqn:Heq; [|reflexivity].
    apply Nat.eqb_eq in Heq. apply P_linear; assumption.
  - apply cat_sim, Mapping_out_sim. exact Hx.
Qed.

Lemma Sequential_forward_sim (s : list module) (x x' : tensor) :
  P x x' -> rrel P (Sequential_forward s x) (Sequential_forward s x').
Proof.
  revert x x'. induction s as [|m s IH]; intros x x' Hx; [exact Hx|].
  cbn [Sequential_forward]. apply (rrel_bind P P).
  - apply module_forward_sim. exact Hx.
  - intros a b Hab. apply IH. exact Hab.
Qed.

Lemma get_forward_sim (s : list module) (i : Z) (x x' : tensor) :
  P x x' ->
  rrel P (l <- Sequential_get s i ;; module_forward l x)%res
         (l <- Sequential_get s i ;; module_forward l x')%res.
Proof.
  intros Hx. destruct (Sequential_get s i) as [l|e]; [|reflexivity].
  cbn [rbind]. apply module_forward_sim. exact Hx.
Qed.

Lemma trunk_from_sim (self : NeRF) (e e' : tensor) (idx : list Z) (h h' : tensor) :
  P e e' -> P h h' ->
  rrel P (trunk_from self e idx h) (trunk_from self e' idx h').
Proof.
  intros He. revert h h'. induction idx as [|i idx IH]; intros h h' Hh; [exact Hh|].
  cbn [trunk_from]. apply (rrel_bind P P); [|intros a b Hab; apply IH; exact Hab].
  unfold trunk_step. apply (rrel_bind P P).
  { destruct (zin i (skips self)); [|exact Hh].
    apply cat_sim. constructor; [exact He|]. constructor; [exact Hh|constructor]. }
  intros a b Hab. apply (rrel_bind P P); [apply get_forward_sim; exact Hab|].
  intros a' b' Hab'. apply get_forward_sim. exact Hab'.
Qed.

Lemma density_sim (self : NeRF) (t t' : tensor) :
  P t t' ->
  rrel (fun p p' => P (fst p) (fst p') /\ P (snd p) (snd p'))
       (density self t) (density self t').
Proof.
  intros Ht. unfold density. apply (rrel_bind P _).
  { apply module_forward_sim. exact Ht. }
  intros e e' He. apply (rrel_bind P _).
  { apply trunk_from_sim; exact He. }
  intros sh sh' Hsh. apply (rrel_bind P _).
  { apply Sequential_forward_sim. exact Hsh. }
  intros sg sg' Hsg. split; assumption.
Qed.

Lemma color_sim (self : NeRF) (sh sh' : tensor) (dt dt' : option tensor) :
  P sh sh' ->
  match dt, dt' with
  | Some d, Some d' => P d d'
  | None, None => True
  | _, _ => False
  end ->
  rrel P (color self sh dt) (color self sh' dt').
Proof.
  intros Hsh Hdt. unfold color. apply (rrel_bind P P).
  { apply Sequential_forward_sim. exact Hsh. }
  intros ft ft' Hft. apply (rrel_bind P P).
  { destruct (0 <? snd (input_sizes self))%Z; [|exact Hft].
    apply (rrel_bind P P).
    - destruct dt as [d|], dt' as [d'|]; try contradiction; [|reflexivity].
      apply module_forward_sim. exact Hdt.
    - intros a b Hab. apply cat_sim.
      constructor; [exact Hft|]. constructor; [exact Hab|constructor]. }
  intros inp inp' Hinp. apply Sequential_forward_sim. exact Hinp.
Qed.

(** The whole forward pass on two batches whose splits are related. *)
Lemma forward_result_sim (self : NeRF) (x x' : tensor) (so : bool) :
  P x x' ->
  (forall a b,
      P (Tensor (batch x) a (at_ x)) (Tensor (batch x') a (at_ x')) /\
      P (Tensor (batch x) b (fun r j => at_ x r (a + j)%nat))
        (Tensor (batch x') b (fun r j => at_ x' r (a + j)%nat))) ->
  rrel P (forward_result self x None so) (forward_result self x' None so).
Proof.
  intros Hx Hsplit. unfold forward_result.
  apply (rrel_bind (fun p p' : tensor * option tensor =>
                      P (fst p) (fst p') /\
                      match snd p, snd p' with
                      | Some t, Some t' => P t t'
                      | None, None => True
                      | _, _ => False
                      end) P).
  { unfold inputs. destruct (negb so && (0 <? snd (input_sizes self))%Z).
    - unfold split. rewrite <- (P_width _ _ Hx).
      destruct ((fst (input_sizes self) <? 0) || (snd (input_sizes self) <? 0))%Z;
        [reflexivity|].
      destruct (Z.of_nat (width x) =? _)%Z; [|reflexivity].
      cbn [rbind rrel fst snd]. apply Hsplit.
    - cbn [rrel fst snd]. split; [exact Hx|exact I]. }
  intros [xyz dt] [xyz' dt'] [Hxyz Hdt]. cbn [fst snd] in *.
  apply (rrel_bind (fun p p' : tensor * tensor =>
                      P (fst p) (fst p') /\ P (snd p) (snd p')) P).
  { apply density_sim. exact Hxyz. }
  intros [sh sg] [sh' sg'] [Hsh Hsg]. cbn [fst snd] in *.
  destruct so; [exact Hsg|].
  apply (rrel_bind P P); [apply color_sim; assumption|].
  intros rgb rgb' Hrgb. apply cat_sim.
  constructor; [exact Hrgb|]. constructor; [exact Hsg|constructor].
Qed.
End Simulation.

(** The number of rows of a batch plays no part in what [forward] does
    with it: on any module object, two batches of the same width, of any
    sizes (the empty batch included), raise the same exception, or both
    calls return, each with as many rows as its input and with the same
    width. *)
Theorem forward_batch_size_irrelevant (self : NeRF) (x x' : tensor)
        (d : option tensor) (so : bool) :
  width x = width x' ->
  rrel (fun out out' =>
          batch out = batch x /\ batch out' = batch x' /\ width out = width out')
       (run (forward x d so) self) (run (forward x' d so) self).
Proof.
  intros Hw. rewrite !run_forward.
  rewrite (forward_result_input_dir self x d None),
          (forward_result_input_dir self x' d None).
  apply (forward_result_sim (batches_rel (batch x) (batch x'))).
  - intros t u (_ & _ & H). exact H.
  - intros t t' u u' (Hb & Hb' & _) (Hc & Hc' & _).
    rewrite Hb, Hb', Hc, Hc', !Nat.eqb_refl. reflexivity.
  - intros f t u H. exact H.
  - intros t u t' u' _ (Hb & Hb' & Hwt) (_ & _ & Hwu).
    repeat split; cbn [cat2 batch width]; congruence.
  - intros l t u _ (Hb & Hb' & _). repeat split; assumption.
  - repeat split. exact Hw.
  - intros a b. split; repeat split.
Qed.

Lemma forward_batch_size_irrelevant_witness :
  width (zeros 2 6) = width (zeros 0 6) /\
  forall self,
    rrel (fun out out' =>
            batch out = 2%nat /\ batch out' = 0%nat /\ width out = width out')
         (run (forward (zeros 2 6) None false) self)
         (run (forward (zeros 0 6) None false) self).
Proof.
  split; [reflexivity|]. intros self.
  exact (forward_batch_size_irrelevant self (zeros 2 6) (zeros 0 6) None false eq_refl).
Defined.

(** * Degenerate layer counts and the skip list *)

Lemma fc_net_length (c : Config.t) (th : weights) (enc : module * module) :
  length (fc_net (model_of c th enc)) = (2 * Z.to_nat (Z.max 1 (Config.layers c)))%nat.
Proof.
  cbn [model_of fc_net].
  rewrite (length_flat_map_uniform _ 2) by reflexivity.
  rewrite range_length. lia.
Qed.

(** With layers <= 0 the constructor still builds one trunk pair, but
    forward never runs it: the density head is applied to the encoded
    input itself, so a sigma_only call returns the (B, 1) density when the
    encoded width is feat and raises a shape error otherwise. *)
Theorem forward_without_trunk (c : Config.t) (th : weights) (self : NeRF)
        (x : tensor) (d : option tensor) :
  NeRF_init c th = Ok self ->
  (Config.layers c <= 0)%Z ->
  (Config.mapping c = true -> (1 <= fst (Config.mapping_sizes c))%Z) ->
  length (fc_net self) = 2%nat /\
  (encoded_width c (fst (Config.mapping_sizes c)) (width x) = Z.to_nat (Config.feat c) ->
   exists sigma, forward x d true self = (Ok sigma, self) /\
                 shape sigma = (batch x, 1%nat)) /\
  (encoded_width c (fst (Config.mapping_sizes c)) (width x) <> Z.to_nat (Config.feat c) ->
   forward x d true self = (Err ShapeMismatch, self)).
Proof.
  intros Hinit HL HN.
  destruct (NeRF_init_inv c th self Hinit) as (Hb & enc & Henc & ->).
  destruct (encoder_xyz c enc x Henc HN) as (e & He & Hbe & Hwe).
  split; [rewrite fc_net_length; lia|].
  assert (Hres : forward_result (model_of c th enc) x d true =
                 rbind (Linear_forward (Linear_of (Config.feat c) 1 (sigma_w th)) e)
                       (fun z => Ok (tmap softplus z))).
  { unfold forward_result, inputs, density.
    cbn [negb andb rbind model_of mapping layers sigma_from_xyz].
    rewrite He. cbn [rbind]. rewrite range_empty by lia.
    cbn [trunk_from rbind Sequential_forward module_forward].
    destruct (Linear_forward _ e); reflexivity. }
  split.
  - intros Hw. rewrite Linear_forward_ok in Hres by (rewrite Hwe; exact Hw).
    eexists. rewrite forward_run, Hres. split; [reflexivity|].
    unfold shape. cbn. rewrite Hbe. reflexivity.
  - intros Hw. rewrite Linear_forward_mismatch in Hres by (rewrite Hwe; exact Hw).
    rewrite forward_run, Hres. reflexivity.
Qed.

Lemma forward_without_trunk_witness :
  exists self sigma,
    NeRF_init no_trunk_config zero_weights = Ok self /\
    (Config.layers no_trunk_config <= 0)%Z /\
    length (fc_net self) = 2%nat /\
    forward (zeros 2 3) None true self = (Ok sigma, self) /\
    shape sigma = (2%nat, 1%nat) /\
    forward (zeros 2 4) None true self = (Err ShapeMismatch, self).
Proof.
  destruct (encoders_ok no_trunk_config eq_refl) as (enc & Henc).
  assert (Hinit : NeRF_init no_trunk_config zero_weights
                  = Ok (model_of no_trunk_config zero_weights enc)).
  { rewrite NeRF_init_eq. change (buildable no_trunk_config) with true.
    cbv iota. rewrite Henc. reflexivity. }
  assert (HL : (Config.layers no_trunk_config <= 0)%Z) by (cbn; lia).
  assert (HN : Config.mapping no_trunk_config = true ->
               (1 <= fst (Config.mapping_sizes no_trunk_config))%Z) by (intros _; cbn; lia).
  destruct (forward_without_trunk _ _ _ (zeros 2 3) None Hinit HL HN) as (Hlen & Hok & _).
  destruct (forward_without_trunk _ _ _ (zeros 2 4) None Hinit HL HN) as (_ & _ & Herr).
  destruct (Hok eq_refl) as (sigma & Hs & Hshape).
  exists (model_of no_trunk_config zero_weights enc), sigma.
  split; [exact Hinit|]. split; [exact HL|]. split; [exact Hlen|].
  split; [exact Hs|]. split; [exact Hshape|].
  apply Herr. cbn. lia.
Defined.

Lemma trunk_from_skips_ext (self self' : NeRF) (e : tensor) (idx : list Z) :
  fc_net self' = fc_net self ->
  (forall i, In i idx -> zin i (skips self') = zin i (skips self)) ->
  forall h, trunk_from self' e idx h = trunk_from self e idx h.
Proof.
  intros Hfc. induction idx as [|i idx IH]; intros Hsk h; [reflexivity|].
  cbn [trunk_from].
  assert (Hstep : trunk_step self' e i h = trunk_step self e i h).
  { unfold trunk_step. rewrite Hfc, (Hsk i (or_introl eq_refl)). reflexivity. }
  rewrite Hstep. destruct (trunk_step self e i h) as [h'|err]; [|reflexivity].
  cbn [rbind]. apply IH. intros j Hj. apply Hsk. right. exact Hj.
Qed.

(** The model depends on the skip list only through the membership of the
    layer indices 0, ..., layers - 1: a skip list that agrees with the
    configured one on these indices (reordered, with duplicates, or with
    indices outside the range added or removed) gives the same trunk
    layers and the same forward pass. *)
Theorem skips_matter_by_membership (c : Config.t) (th : weights) (self : NeRF)
        (sk : list Z) :
  NeRF_init c th = Ok self ->
  (forall i, (0 <= i < Config.layers c)%Z -> zin i sk = zin i (Config.skips c)) ->
  exists self',
    NeRF_init (with_skips c sk) th = Ok self' /\
    fc_net self' = fc_net self /\
    forall x d so, run (forward x d so) self' = run (forward x d so) self.
Proof.
  intros Hinit Hsk.
  destruct (NeRF_init_inv c th self Hinit) as (Hb & enc & Henc & ->).
  exists (model_of (with_skips c sk) th enc).
  assert (Hfc : fc_net (model_of (with_skips c sk) th enc) = fc_net (model_of c th enc)).
  { cbn [model_of fc_net with_skips Config.layers Config.siren].
    apply flat_map_ext_in. intros i Hi. apply range_In in Hi.
    f_equal. f_equal. unfold trunk_linear. f_equal.
    unfold trunk_in_width. cbn [with_skips Config.skips Config.feat].
    change (in_size (with_skips c sk)) with (in_size c).
    destruct (i =? 0)%Z eqn:H0; [reflexivity|]. apply Z.eqb_neq in H0.
    rewrite Hsk by lia. reflexivity. }
  split; [|split; [exact Hfc|]].
  - rewrite NeRF_init_eq, buildable_with_skips, Hb.
    change (encoders (with_skips c sk)) with (encoders c).
    rewrite Henc. reflexivity.
  - intros x d so. rewrite !run_forward. unfold forward_result.
    change (inputs (model_of (with_skips c sk) th enc) x d so)
      with (inputs (model_of c th enc) x d so).
    destruct (inputs (model_of c th enc) x d so) as [[xyz dt]|e]; [|reflexivity].
    cbn [rbind].
    assert (Hden : density (model_of (with_skips c sk) th enc) xyz
                   = density (model_of c th enc) xyz).
    { unfold density.
      change (mapping (model_of (with_skips c sk) th enc))
        with (mapping (model_of c th enc)).
      destruct (module_forward _ xyz) as [e|err]; [|reflexivity].
      cbn [rbind].
      change (layers (model_of (with_skips c sk) th enc)) with (Config.layers c).
      change (layers (model_of c th enc)) with (Config.layers c).
      rewrite (trunk_from_skips_ext (model_of c th enc) (model_of (with_skips c sk) th enc))
        by (try exact Hfc; intros i Hi; apply range_In in Hi; apply Hsk; lia).
      reflexivity. }
    rewrite Hden. reflexivity.
Qed.

Lemma skips_matter_by_membership_witness :
  exists self self',
    NeRF_init DefaultConfig zero_weights = Ok self /\
    NeRF_init (with_skips DefaultConfig [9; 4; -1; 4]%Z) zero_weights = Ok self' /\
    fc_net self' = fc_net self /\
    forall x d so, run (forward x d so) self' = run (forward x d so) self.
Proof.
  destruct (encoders_ok DefaultConfig eq_refl) as (enc & Henc).
  assert (Hinit : NeRF_init DefaultConfig zero_weights
                  = Ok (model_of DefaultConfig zero_weights enc)).
  { rewrite NeRF_init_eq. change (buildable DefaultConfig) with true.
    cbv iota. rewrite Henc. reflexivity. }
  destruct (skips_matter_by_membership DefaultConfig zero_weights _ [9; 4; -1; 4]%Z Hinit)
    as (self' & Hinit' & Hfc & Hfw).
  - intros i Hi. cbn [Config.layers Config.skips DefaultConfig] in *.
    unfold zin. cbn [existsb].
    destruct (Z.eqb_spec i 9); [lia|]. destruct (Z.eqb_spec i (-1)); [lia|].
    destruct (i =? 4)%Z; reflexivity.
  - exists (model_of DefaultConfig zero_weights enc), self'.
    split; [exact Hinit|]. split; [exact Hinit'|]. split; [exact Hfc|exact Hfw].
Defined.

(** * load_config *)

(** What [load_config] returns: the preset filed under the name, with the
    two overrides applied. *)
Lemma load_config_inv (args : Args) (conf : Conf.t) :
  load_config args = Found conf ->
  exists preset,
    In (config_name args, preset) config_dict /\
    conf = (if String.eqb (dataset_name args) "blender" then set_blender else fun p => p)
             (if String.eqb (config_name args) "nerf" then preset
              else set_lr_bs preset 1e-4 256).
Proof.
  destruct args as [n ds]. unfold load_config. cbn [config_name dataset_name].
  unfold config_dict. cbn [dict_get In].
  destruct (String.eqb "nerf" n) eqn:E1.
  { apply String.eqb_eq in E1. subst n.
    change (contains "s-nerf" "nerf") with false. cbv iota zeta.
    intros H. injection H as <-. exists Presets.DefaultConfig.
    split; [left; reflexivity|]. destruct (String.eqb ds "blender"); reflexivity. }
  destruct (String.eqb "s-nerf_basic" n) eqn:E2.
  { apply String.eqb_eq in E2. subst n.
    change (contains "s-nerf" "s-nerf_basic") with true. cbv iota zeta.
    intros H. injection H as <-. exists Presets.SNerfBasicConfig.
    split; [right; left; reflexivity|]. destruct (String.eqb ds "blender"); reflexivity. }
  destruct (String.eqb "s-nerf_full" n) eqn:E3.
  { apply String.eqb_eq in E3. subst n.
    change (contains "s-nerf" "s-nerf_full") with true. cbv iota zeta.
    intros H. injection H as <-. exists Presets.SNerfFullConfig.
    split; [right; right; left; reflexivity|].
    destruct (String.eqb ds "blender"); reflexivity. }
  discriminate.
Qed.

Lemma load_config_found (args : Args) :
  In (config_name args) ["nerf"; "s-nerf_basic"; "s-nerf_full"]%string ->
  exists conf, load_config args = Found conf /\
               Conf.name conf = config_name args.
Proof.
  destruct args as [n ds]. cbn [config_name].
  intros Hn. unfold load_config, config_dict. cbn [config_name dataset_name dict_get].
  destruct Hn as [<-|[<-|[<-|[]]]].
  - change (String.eqb "nerf" "nerf") with true.
    change (contains "s-nerf" "nerf") with false. cbv iota zeta.
    destruct (String.eqb ds "blender"); eexists; split; reflexivity.
  - change (String.eqb "nerf" "s-nerf_basic") with false.
    change (String.eqb "s-nerf_basic" "s-nerf_basic") with true.
    change (contains "s-nerf" "s-nerf_basic") with true. cbv iota zeta.
    destruct (String.eqb ds "blender"); eexists; split; reflexivity.
  - change (String.eqb "nerf" "s-nerf_full") with false.
    change (String.eqb "s-nerf_basic" "s-nerf_full") with false.
    change (String.eqb "s-nerf_full" "s-nerf_full") with true.
    change (contains "s-nerf" "s-nerf_full") with true. cbv iota zeta.
    destruct (String.eqb ds "blender"); eexists; split; reflexivity.
Qed.

Lemma load_config_missing (args : Args) :
  ~ In (config_name args) ["nerf"; "s-nerf_basic"; "s-nerf_full"]%string ->
  load_config args = KeyError (config_name args).
Proof.
  destruct args as [n ds]. cbn [config_name].
  intros Hn. unfold load_config, config_dict. cbn [config_name dict_get].
  assert (E1 : String.eqb "nerf" n = false)
    by (apply String.eqb_neq; intros <-; apply Hn; left; reflexivity).
  assert (E2 : String.eqb "s-nerf_basic" n = false)
    by (apply String.eqb_neq; intros <-; apply Hn; right; left; reflexivity).
  assert (E3 : String.eqb "s-nerf_full" n = false)
    by (apply String.eqb_neq; intros <-; apply Hn; right; right; left; reflexivity).
  rewrite E1, E2, E3. reflexivity.
Qed.

(** [load_config] returns a configuration exactly for the three preset
    names, and the configuration carries the name asked for; any other
    name raises KeyError with that name, whatever the dataset. *)
Theorem load_config_known_names (args : Args) :
  (In (config_name args) ["nerf"; "s-nerf_basic"; "s-nerf_full"]%string ->
   exists conf, load_config args = Found conf /\
                Conf.name conf = config_name args) /\
  (~ In (config_name args) ["nerf"; "s-nerf_basic"; "s-nerf_full"]%string ->
   load_config args = KeyError (config_name args)).
Proof.
  split; [apply load_config_found|apply load_config_missing].
Qed.

Lemma load_config_known_names_witness :
  (exists conf,
      load_config {| config_name := "s-nerf_basic"; dataset_name := "blender" |}
      = Found conf /\ Conf.name conf = "s-nerf_basic"%string) /\
  load_config {| config_name := "mip-nerf"; dataset_name := "blender" |}
  = KeyError "mip-nerf".
Proof.
  split.
  - apply (load_config_known_names
             {| config_name := "s-nerf_basic"; dataset_name := "blender" |}).
    right. left. reflexivity.
  - apply (load_config_known_names
             {| config_name := "mip-nerf"; dataset_name := "blender" |}).
    intros [H|[H|[H|[]]]]; discriminate.
Defined.

(** The two overrides of [load_config]: the learning rate and the batch
    size are 1e-4 and 256 for the two s-nerf presets and stay 5e-4 and 1024
    for 'nerf'; the direction size is 3 for the dataset 'blender' and 0 for
    any other; the xyz size is 3 and every other field read by the model or
    the training loop is the preset's default. *)
Theorem load_config_overrides (args : Args) (conf : Conf.t) :
  load_config args = Found conf ->
  let t := Conf.training conf in
  let m := Conf.model conf in
  Training.lr t = (if String.eqb (config_name args) "nerf" then 5e-4 else 1e-4) /\
  Training.bs t = (if String.eqb (config_name args) "nerf" then 1024 else 256)%Z /\
  Config.input_sizes m
  = (3, if String.eqb (dataset_name args) "blender" then 3 else 0)%Z /\
  (Training.workers t, Training.chunk t, Training.n_epochs t, Training.lr_scheduler t)
  = (4, 32768, 15, "cosine"%string)%Z /\
  (Training.weight_decay t, Training.perturb t, Training.noise_std t, Training.use_disp t)
  = (0, 1.0, 1.0, false) /\
  (Config.layers m, Config.mapping_sizes m, Conf.n_samples conf, Conf.n_importance conf)
  = (8, (10, 4), 64, 64)%Z /\
  (Config.feat m, Config.mapping m, Config.siren m, Config.skips m)
  = (if String.eqb (config_name args) "nerf"
     then (256%Z, true, false, [4%Z]) else (100%Z, false, true, [])).
Proof.
  intros H. apply load_config_inv in H. destruct H as (preset & Hin & ->).
  destruct args as [n ds]. cbn [config_name dataset_name] in *.
  unfold config_dict in Hin. cbn [In] in Hin.
  destruct Hin as [H|[H|[H|[]]]]; injection H as <- <-.
  - change (String.eqb "nerf" "nerf") with true. cbv iota.
    destruct (String.eqb ds "blender"); repeat split.
  - change (String.eqb "s-nerf_basic" "nerf") with false. cbv iota.
    destruct (String.eqb ds "blender"); repeat split.
  - change (String.eqb "s-nerf_full" "nerf") with false. cbv iota.
    destruct (String.eqb ds "blender"); repeat split.
Qed.

Lemma load_config_overrides_witness :
  exists conf,
    load_config {| config_name := "s-nerf_full"; dataset_name := "blender" |}
    = Found conf /\
    Training.lr (Conf.training conf) = 1e-4 /\
    Training.bs (Conf.training conf) = 256%Z /\
    Config.input_sizes (Conf.model conf) = (3, 3)%Z.
Proof.
  destruct (load_config_found
              {| config_name := "s-nerf_full"; dataset_name := "blender" |})
    as (conf & Hc & _); [right; right; left; reflexivity|].
  exists conf. split; [exact Hc|].
  destruct (load_config_overrides _ conf Hc) as (Hlr & Hbs & Hsz & _).
  split; [exact Hlr|]. split; [exact Hbs|exact Hsz].
Defined.

(** Every configuration [load_config] returns builds a model, and that
    model accepts the batches its input sizes call for: width 3, or 6 with
    the dataset 'blender', gives the (B, 4) output, and width 3 with
    sigma_only gives the (B, 1) density. *)
Theorem loaded_config_builds_working_model (args : Args) (conf : Conf.t)
        (th : weights) :
  load_config args = Found conf ->
  exists self,
    NeRF_init (Conf.model conf) th = Ok self /\
    forall x d,
      (Z.of_nat (width x)
       = (if String.eqb (dataset_name args) "blender" then 6 else 3)%Z ->
       exists out, run (forward x d false) self = Ok out /\
                   shape out = (batch x, 4%nat)) /\
      (Z.of_nat (width x) = 3%Z ->
       exists sigma, run (forward x d true) self = Ok sigma /\
                     shape sigma = (batch x, 1%nat)).
Proof.
  intros H. apply load_config_inv in H. destruct H as (preset & Hin & ->).
  destruct args as [n ds]. cbn [config_name dataset_name] in *.
  set (c := Conf.model _).
  assert (Hc : buildable c = true /\ ModelConfig_ok c = true /\
               expected_width c true = 3%Z /\
               expected_width c false
               = (if String.eqb ds "blender" then 6 else 3)%Z).
  { unfold c, config_dict in *. cbn [In] in Hin.
    destruct Hin as [H|[H|[H|[]]]]; injection H as <- <-;
      destruct (String.eqb ds "blender"); repeat split. }
  destruct Hc as (Hb & Hok & He1 & He2).
  destruct (encoders_ok c Hb) as (enc & Henc).
  assert (Hinit : NeRF_init c th = Ok (model_of c th enc)).
  { rewrite NeRF_init_eq, Hb, Henc. reflexivity. }
  exists (model_of c th enc). split; [exact Hinit|].
  intros x d. split; intros Hw.
  - destruct (forward_stages_ok c th _ x d false Hinit Hok)
      as (_ & _ & _ & sg & _ & _ & Hs & _ & rgb & _ & Hsr & _ & Hres);
      [rewrite He2; exact Hw|].
    exists (cat2 rgb sg). rewrite run_forward. split; [exact Hres|].
    injection Hs as Hbs Hws. injection Hsr as Hbr Hwr.
    unfold shape. cbn [cat2 batch width]. rewrite Hbr, Hwr, Hws. reflexivity.
  - destruct (forward_stages_ok c th _ x d true Hinit Hok)
      as (_ & _ & _ & sg & _ & _ & Hs & _ & Hres); [rewrite He1; exact Hw|].
    exists sg. rewrite run_forward. split; [exact Hres|exact Hs].
Qed.

Lemma loaded_config_builds_working_model_witness :
  exists conf self out,
    load_config {| config_name := "nerf"; dataset_name := "blender" |} = Found conf /\
    NeRF_init (Conf.model conf) zero_weights = Ok self /\
    run (forward (zeros 2 6) None false) self = Ok out /\
    shape out = (2%nat, 4%nat).
Proof.
  destruct (load_config_found
              {| config_name := "nerf"; dataset_name := "blender" |})
    as (conf & Hc & _); [left; reflexivity|].
  destruct (loaded_config_builds_working_model _ conf zero_weights Hc)
    as (self & Hinit & Hfw).
  destruct (Hfw (zeros 2 6) None) as [Hfull _].
  destruct (Hfull eq_refl) as (out & Hout & Hs).
  exists conf, self, out. repeat split; assumption.
Defined.

(** * The density and the weights of the colour branch *)

(** The density never reads the weights of the feature head and of the
    colour head: two models built from the same configuration, with the
    same trunk weights and the same density-head weights, return the same
    sigma_only output (or raise the same exception), whatever their other
    weights. *)
Theorem density_ignores_color_weights (c : Config.t) (th th' : weights)
        (self self' : NeRF) (x : tensor) (d : option tensor) :
  NeRF_init c th = Ok self -> NeRF_init c th' = Ok self' ->
  (forall i, (0 <= i < Z.max 1 (Config.layers c))%Z -> fc_w th' i = fc_w th i) ->
  sigma_w th' = sigma_w th ->
  run (forward x d true) self' = run (forward x d true) self.
Proof.
  intros Hinit Hinit' Hfc Hsg.
  destruct (NeRF_init_inv c th self Hinit) as (_ & enc & Henc & ->).
  destruct (NeRF_init_inv c th' self' Hinit') as (_ & enc' & Henc' & ->).
  assert (enc' = enc) by congruence. subst enc'.
  assert (Hnet : fc_net (model_of c th' enc) = fc_net (model_of c th enc)).
  { cbn [model_of fc_net]. apply flat_map_ext_in. intros i Hi.
    apply range_In in Hi. unfold trunk_linear. rewrite Hfc by lia. reflexivity. }
  rewrite !run_forward. unfold forward_result, inputs, density.
  cbn [negb andb rbind model_of mapping layers sigma_from_xyz].
  destruct (module_forward (fst enc) x) as [e|err]; [|reflexivity].
  cbn [rbind].
  rewrite (trunk_from_skips_ext (model_of c th enc) (model_of c th' enc) e _ Hnet)
    by reflexivity.
  rewrite Hsg. reflexivity.
Qed.

Lemma density_ignores_color_weights_witness :
  exists self self',
    NeRF_init DefaultConfig zero_weights = Ok self /\
    NeRF_init DefaultConfig
              {| fc_w := fun _ => zero_init; sigma_w := zero_init;
                 feats_w := {| weight0 := fun _ _ => 1; bias0 := fun _ => 1 |};
                 rgb_hidden_w := {| weight0 := fun _ _ => 1; bias0 := fun _ => 1 |};
                 rgb_out_w := {| weight0 := fun _ _ => 1; bias0 := fun _ => 1 |} |}
    = Ok self' /\
    run (forward (zeros 2 3) None true) self' = run (forward (zeros 2 3) None true) self.
Proof.
  destruct (encoders_ok DefaultConfig eq_refl) as (enc & Henc).
  eexists (model_of DefaultConfig zero_weights enc), (model_of DefaultConfig _ enc).
  assert (Hinit : forall th, NeRF_init DefaultConfig th = Ok (model_of DefaultConfig th enc)).
  { intros th. rewrite NeRF_init_eq. change (buildable DefaultConfig) with true.
    cbv iota. rewrite Henc. reflexivity. }
  split; [apply Hinit|]. split; [apply Hinit|].
  apply (density_ignores_color_weights DefaultConfig zero_weights _ _ _ (zeros 2 3) None
           (Hinit _) (Hinit _)).
  - intros i _. reflexivity.
  - reflexivity.
Defined.
